(** * tstcc: a Try-Confirm-Cancel transaction coordinator

    A shallow embedding of the coordinator core: the error classes and
    their classification ([errors]), the retry helper ([withRetry]),
    the configuration object ([TxConfig]), the MySQL transaction log
    ([MySQLTxStore]) and the transaction manager ([TxManager]); beside
    them the store and the component of the test suite ([MockTxStore]),
    the HTTP component ([NetworkTccComponent]), the lock of the MySQL
    store ([MySQLTxStoreLock]) and the metrics collector ([metrics]).

    Conventions.
    - JavaScript numbers that hold milliseconds or multipliers in the
      retry helper are exact rationals ([Q]); rounding of IEEE doubles is
      not modelled.  Transaction ids are naturals ([N]); the two
      [TxConfig] durations are integral milliseconds ([Z]).
    - A JavaScript promise is described by the way it settles
      ([Settled]): fulfilled or rejected at an instant, or never.
    - Logging and metrics calls have no influence on control flow and
      are left out of the functions that make them; the collector is
      modelled on its own.  The [cause] field of the error classes is
      only carried for diagnostics and is left out as well. *)

From Stdlib Require Import Ascii QArith Qminmax DecimalString.
From stdpp Require Import gmap strings list sorting.

Local Open Scope string_scope.
Local Open Scope Z_scope.
Local Open Scope list_scope.

(* ===================================================================== *)
(** ** enums.ts *)
(* ===================================================================== *)

(** Modelled from the spec: [enums.ts] is not among the sources.  The
    data model names the three values of each enumeration; [docs/usage]
    lists them as [hanging | successful | failure]. *)
Inductive ComponentTryStatus : Type :=
| TryHanging
| TrySuccessful
| TryFailure.

(** Modelled from the spec: [enums.ts] is not among the sources (see
    [ComponentTryStatus]). *)
Inductive TXStatus : Type :=
| TXHanging
| TXSuccessful
| TXFailure.

#[global] Instance ComponentTryStatus_eq_dec : EqDecision ComponentTryStatus.
Proof. solve_decision. Defined.

#[global] Instance TXStatus_eq_dec : EqDecision TXStatus.
Proof. solve_decision. Defined.

(* ===================================================================== *)
(** ** JavaScript strings and thrown values *)
(* ===================================================================== *)

(** [s.includes(sub)]. *)
Fixpoint includes (s sub : string) : bool :=
  String.prefix sub s ||
  match s with
  | EmptyString => false
  | String _ s' => includes s' sub
  end.

(** Template-literal rendering of a non-negative integer (in decimal;
    JavaScript switches to exponent notation from 10^21 on, which no
    identifier reaches). *)
Definition show_N (n : N) : string := NilZero.string_of_uint (N.to_uint n).

(** Template-literal rendering of an integer. *)
Definition show_Z (z : Z) : string := NilZero.string_of_int (Z.to_int z).

(* ===================================================================== *)
(** ** errors.ts *)
(* ===================================================================== *)

Module errors.

(** The class of an error object; [instanceof C] for a leaf class [C] is
    equality on this tag. *)
Inductive ErrorClass : Type :=
| Error_
| TypeError
| TccError
| TransactionTimeoutError
| ComponentExecutionError
| TransactionNotFoundError
| DuplicateComponentError
| StorageError
| LockAcquisitionError
| InvalidTransactionStateError
| RetryableError.

#[global] Instance ErrorClass_eq_dec : EqDecision ErrorClass.
Proof. solve_decision. Defined.

Record JsError : Type := mkError {
  class_of : ErrorClass;
  message : string
}.

#[global] Instance JsError_eq_dec : EqDecision JsError.
Proof. solve_decision. Defined.

(** The [name] property set by each constructor. *)
Definition name (e : JsError) : string :=
  match class_of e with
  | Error_ => "Error"
  | TypeError => "TypeError"
  | TccError => "TccError"
  | TransactionTimeoutError => "TransactionTimeoutError"
  | ComponentExecutionError => "ComponentExecutionError"
  | TransactionNotFoundError => "TransactionNotFoundError"
  | DuplicateComponentError => "DuplicateComponentError"
  | StorageError => "StorageError"
  | LockAcquisitionError => "LockAcquisitionError"
  | InvalidTransactionStateError => "InvalidTransactionStateError"
  | RetryableError => "RetryableError"
  end.

(** Anything a [throw] can raise: an [Error] object, or some other value,
    kept by its [String(value)] rendering. *)
Inductive Thrown : Type :=
| ThrownError (e : JsError)
| ThrownValue (rendering : string).

#[global] Instance Thrown_eq_dec : EqDecision Thrown.
Proof. solve_decision. Defined.

(** [String(error)]: [Error.prototype.toString] for error objects. *)
Definition String_ (t : Thrown) : string :=
  match t with
  | ThrownError e =>
      if decide (message e = "") then name e else name e +:+ ": " +:+ message e
  | ThrownValue s => s
  end.

Inductive Phase : Type := phase_try | phase_confirm | phase_cancel.

Definition show_phase (p : Phase) : string :=
  match p with
  | phase_try => "try"
  | phase_confirm => "confirm"
  | phase_cancel => "cancel"
  end.

Definition new_Error (msg : string) : JsError := mkError Error_ msg.

Definition new_TransactionTimeoutError (txId : N) (timeoutMs : Z) : JsError :=
  mkError TransactionTimeoutError
    ("事务 " +:+ show_N txId +:+ " 超时 (" +:+ show_Z timeoutMs +:+ "ms)").

Definition new_ComponentExecutionError
    (componentId : string) (phase : Phase) (msg : string) : JsError :=
  mkError ComponentExecutionError
    ("组件 " +:+ componentId +:+ " " +:+ show_phase phase
       +:+ " 阶段执行失败: " +:+ msg).

Definition new_TransactionNotFoundError (txId : N) : JsError :=
  mkError TransactionNotFoundError ("事务 " +:+ show_N txId +:+ " 不存在").

Definition new_DuplicateComponentError (componentId : string) : JsError :=
  mkError DuplicateComponentError
    ("组件 " +:+ componentId +:+ " 已注册，不能重复注册").

Definition new_StorageError (operation : string) : JsError :=
  mkError StorageError ("存储操作失败: " +:+ operation).

(** retry.ts: [new RetryableError(message, cause)]. *)
Definition new_RetryableError (msg : string) : JsError :=
  mkError RetryableError msg.

(** [wrapError(error, context)]. *)
Definition wrapError (error : Thrown) (context : string) : JsError :=
  match error with
  | ThrownError e => e
  | ThrownValue s => new_Error (context +:+ ": " +:+ s)
  end.

(** [isRetryableError(error)]. *)
Definition isRetryableError (error : JsError) : bool :=
  includes (message error) "ECONNREFUSED" ||
  includes (message error) "ETIMEDOUT" ||
  includes (message error) "ENOTFOUND" ||
  includes (message error) "timeout" ||
  bool_decide (class_of error = StorageError).

End errors.
Export errors.

(* ===================================================================== *)
(** ** tx_config.ts *)
(* ===================================================================== *)

Record TxConfig : Type := mkTxConfig {
  timeout : Z;
  monitorInterval : Z;
  enableMonitor : bool
}.

(** [new TxConfig(timeout, monitorInterval, enableMonitor)]. *)
Definition new_TxConfig (timeout_ monitorInterval_ : Z) (enableMonitor_ : bool)
    : TxConfig :=
  {| timeout := if decide (timeout_ > 0) then timeout_ else 5000;
     monitorInterval :=
       if decide (monitorInterval_ > 0) then monitorInterval_ else 1000;
     enableMonitor := enableMonitor_ |}.

(* ===================================================================== *)
(** ** Promises *)
(* ===================================================================== *)

(** How a promise settles.  Instants are milliseconds counted from the
    moment the enclosing operation was started. *)
Inductive Settled (T : Type) : Type :=
| Fulfilled (at_ : Q) (value : T)
| Rejected (at_ : Q) (reason : Thrown)
| Pending.

Arguments Fulfilled {T} at_ value.
Arguments Rejected {T} at_ reason.
Arguments Pending {T}.

Definition is_fulfilled {T} (p : Settled T) : bool :=
  match p with Fulfilled _ _ => true | _ => false end.

Definition is_rejected {T} (p : Settled T) : bool :=
  match p with Rejected _ _ => true | _ => false end.

(** The instant at which a promise settles, if it does. *)
Definition settled_at {T} (p : Settled T) : option Q :=
  match p with
  | Fulfilled t _ | Rejected t _ => Some t
  | Pending => None
  end.

(** The earliest rejection among [ps]; of two rejections at the same
    instant the one earlier in the array is reported. *)
Fixpoint first_rejection {T} (ps : list (Settled T)) : option (Q * Thrown) :=
  match ps with
  | [] => None
  | p :: ps' =>
      match p, first_rejection ps' with
      | Rejected t e, Some (t', e') =>
          if Qle_bool t t' then Some (t, e) else Some (t', e')
      | Rejected t e, None => Some (t, e)
      | _, r => r
      end
  end.

(** The latest instant among the fulfilments in [ps]. *)
Definition last_fulfilment {T} (ps : list (Settled T)) : Q :=
  foldr (fun p acc => match p with Fulfilled t _ => Qmax t acc | _ => acc end)
        0%Q ps.

Definition fulfilled_values {T} (ps : list (Settled T)) : list T :=
  omap (fun p => match p with Fulfilled _ v => Some v | _ => None end) ps.

(** [Promise.all(ps)]: rejects as soon as one element rejects, fulfils
    once every element has fulfilled, and stays pending otherwise. *)
Definition Promise_all {T} (ps : list (Settled T)) : Settled (list T) :=
  match first_rejection ps with
  | Some (t, e) => Rejected t e
  | None =>
      if forallb is_fulfilled ps
      then Fulfilled (last_fulfilment ps) (fulfilled_values ps)
      else Pending
  end.

(* ===================================================================== *)
(** ** retry.ts *)
(* ===================================================================== *)

Module retry.

Record RetryConfig : Type := mkRetryConfig {
  maxRetries : Z;
  baseDelayMs : Q;
  maxDelayMs : Q;
  backoffMultiplier : Q;
  jitterMs : option Q
}.

Definition DEFAULT_RETRY_CONFIG : RetryConfig :=
  {| maxRetries := 3;
     baseDelayMs := 1000;
     maxDelayMs := 30000;
     backoffMultiplier := 2;
     jitterMs := Some 100%Q |}.

(** [Partial<RetryConfig>]: every key may be absent. *)
Record PartialRetryConfig : Type := mkPartialRetryConfig {
  p_maxRetries : option Z;
  p_baseDelayMs : option Q;
  p_maxDelayMs : option Q;
  p_backoffMultiplier : option Q;
  p_jitterMs : option Q
}.

(** The default value [{}] of the [config] argument. *)
Definition no_overrides : PartialRetryConfig :=
  mkPartialRetryConfig None None None None None.

(** [{ ...DEFAULT_RETRY_CONFIG, ...config }]. *)
Definition spread (config : PartialRetryConfig) : RetryConfig :=
  {| maxRetries := default (maxRetries DEFAULT_RETRY_CONFIG) (p_maxRetries config);
     baseDelayMs :=
       default (baseDelayMs DEFAULT_RETRY_CONFIG) (p_baseDelayMs config);
     maxDelayMs := default (maxDelayMs DEFAULT_RETRY_CONFIG) (p_maxDelayMs config);
     backoffMultiplier :=
       default (backoffMultiplier DEFAULT_RETRY_CONFIG) (p_backoffMultiplier config);
     jitterMs :=
       match p_jitterMs config with
       | Some j => Some j
       | None => jitterMs DEFAULT_RETRY_CONFIG
       end |}.

(** [error instanceof RetryableError]. *)
Definition instanceof_RetryableError (error : Thrown) : bool :=
  match error with
  | ThrownError e => bool_decide (class_of e = RetryableError)
  | ThrownValue _ => false
  end.

(** What [withRetry] did, in order. *)
Inductive RetryEvent : Type :=
| Attempt (attempt : nat)
| Sleep (finalDelay : Q).

Section withRetry.
Context {St T : Type}.

(** [operation attempt s]: how the call made on attempt number
    [attempt] settles when started in state [s] (the instant is the
    duration of the call), and the state it leaves. *)
Variable operation : nat -> St -> Settled T * St.

(** [random attempt]: the value [Math.random()] returns when the delay
    after attempt number [attempt] is computed. *)
Variable random : nat -> Q.

Variable finalConfig : RetryConfig.

(** [Math.min(baseDelayMs * Math.pow(backoffMultiplier, attempt),
    maxDelayMs)]. *)
Definition delay (attempt : nat) : Q :=
  Qmin (baseDelayMs finalConfig
          * Qpower (backoffMultiplier finalConfig) (Z.of_nat attempt))
       (maxDelayMs finalConfig).

(** [finalConfig.jitterMs ? Math.random() * finalConfig.jitterMs : 0]. *)
Definition jitter (attempt : nat) : Q :=
  match jitterMs finalConfig with
  | Some j => if Qeq_bool j 0 then 0 else random attempt * j
  | None => 0
  end.

Definition finalDelay (attempt : nat) : Q := delay attempt + jitter attempt.

Record Run : Type := mkRun {
  settled : Settled T;
  state : St;
  trace : list RetryEvent
}.

Definition after (evs : list RetryEvent) (r : Run) : Run :=
  {| settled := settled r; state := state r; trace := evs ++ trace r |}.

(** The body of the [for] loop from [attempt] on; [remaining] is
    [maxRetries - attempt] and [now] the time spent so far. *)
Fixpoint loop (remaining attempt : nat) (now : Q) (s : St) : Run :=
  match operation attempt s with
  | (Fulfilled d v, s') => mkRun (Fulfilled (now + d) v) s' [Attempt attempt]
  | (Pending, s') => mkRun Pending s' [Attempt attempt]
  | (Rejected d error, s') =>
      if negb (instanceof_RetryableError error)
      then mkRun (Rejected (now + d) error) s' [Attempt attempt]
      else
        match remaining with
        | O => mkRun (Rejected (now + d) error) s' [Attempt attempt]
        | S remaining' =>
            after [Attempt attempt; Sleep (finalDelay attempt)]
              (loop remaining' (S attempt)
                    (now + d + finalDelay attempt) s')
        end
  end.

(** [withRetry(operation, config, context)], once [finalConfig] has been
    computed.  With a negative [maxRetries] the loop body never runs
    and the final [throw lastError!] raises [undefined]. *)
Definition withRetry_from (s : St) : Run :=
  if decide (maxRetries finalConfig < 0)
  then mkRun (Rejected 0 (ThrownValue "undefined")) s []
  else loop (Z.to_nat (maxRetries finalConfig)) 0 0 s.

(** The state in which attempt number [k] starts when every earlier
    attempt was made. *)
Fixpoint state_before (s : St) (k : nat) : St :=
  match k with
  | O => s
  | S k' => (operation k' (state_before s k')).2
  end.

Definition outcome_of (s : St) (k : nat) : Settled T :=
  (operation k (state_before s k)).1.

Definition state_after (s : St) (k : nat) : St :=
  (operation k (state_before s k)).2.

Definition duration (o : Settled T) : Q :=
  match o with
  | Fulfilled d _ | Rejected d _ => d
  | Pending => 0
  end.

(** The time spent when attempt number [k] starts: the calls made so
    far and the sleeps between them. *)
Fixpoint now_before (s : St) (k : nat) : Q :=
  match k with
  | O => 0
  | S k' => now_before s k' + duration (outcome_of s k') + finalDelay k'
  end.

(** The trace of a run whose last attempt is number [n]. *)
Definition trace_upto (n : nat) : list RetryEvent :=
  flat_map (fun j => [Attempt j; Sleep (finalDelay j)]) (seq 0 n)
    ++ [Attempt n].

End withRetry.

Definition withRetry {St T : Type}
    (operation : nat -> St -> Settled T * St) (random : nat -> Q)
    (config : PartialRetryConfig) (s : St) : Run :=
  withRetry_from operation random (spread config) s.

(** An attempt that failed with an error [withRetry] retries. *)
Definition retryable_failure {T} (o : Settled T) : Prop :=
  exists d e, o = Rejected d e /\ instanceof_RetryableError e = true.

End retry.
Export retry.

(* ===================================================================== *)
(** ** tccComponent.ts and model.ts *)
(* ===================================================================== *)

(** A participant.  Its three operations are opaque to the coordinator;
    a participant is described by the way each call settles (the instant
    is the duration of the call).  [try] is called once per transaction;
    [confirm k] and [cancel k] describe the call number [k] made during
    one fan-out. *)
Module TccComponent.
Record t : Type := mk {
  id : string;
  try : Settled unit;
  confirm : nat -> Settled unit;
  cancel : nat -> Settled unit
}.
End TccComponent.

Record ComponentTryStatusEntry : Type := mkEntry {
  componentId : string;
  tryStatus : ComponentTryStatus
}.

#[global] Instance ComponentTryStatusEntry_eq_dec :
  EqDecision ComponentTryStatusEntry.
Proof. solve_decision. Defined.

(** [Record<string, {componentId, tryStatus}>].  Only own properties are
    modelled: component ids are taken not to collide with the property
    names every object inherits. *)
Abbreviation ComponentTryStatusRecord := (gmap string ComponentTryStatusEntry).

(** [created_at] is kept as a number of seconds; the textual form
    [YYYY-MM-DD HH:mm:ss] orders the same way. *)
Module Transaction.
Record t : Type := mk {
  id : N;
  status : TXStatus;
  component_try_statuses : ComponentTryStatusRecord;
  created_at : Z
}.
End Transaction.

(** The object both stores build in [CreateTx]: one entry per component,
    each at [TryHanging]. *)
Definition tryStatusMap (components : list TccComponent.t)
    : ComponentTryStatusRecord :=
  foldl (fun m component =>
           <[TccComponent.id component :=
               mkEntry (TccComponent.id component) TryHanging]> m)
        ∅ components.

(* ===================================================================== *)
(** ** stores/mysql-store.ts *)
(* ===================================================================== *)

Module MySQLTxStore.

(** A row of the table [tx_record] of [example/database.sql]. *)
Record Row : Type := mkRow {
  row_id : N;
  row_status : TXStatus;
  row_component_try_statuses : ComponentTryStatusRecord;
  row_created_at : Z
}.

(** The connection pool together with the database behind it.
    [faults] scripts the driver: its head tells whether the next
    statement is rejected by the driver (connection lost and the like)
    instead of being run; statements take no time.  [now] is the wall
    clock read by [dayjs()]. *)
Record Pool : Type := mkPool {
  tx_record : list Row;
  auto_increment : N;
  faults : list bool;
  now : Z
}.

Definition next_fault (pool : Pool) : bool * Pool :=
  match faults pool with
  | [] => (false, pool)
  | f :: fs =>
      (f, {| tx_record := tx_record pool; auto_increment := auto_increment pool;
             faults := fs; now := now pool |})
  end.

Definition with_table (pool : Pool) (rows : list Row) : Pool :=
  {| tx_record := rows; auto_increment := auto_increment pool;
     faults := faults pool; now := now pool |}.

(** What the [catch] blocks throw for a driver error. *)
Definition storage_failure (operation : string) : Thrown :=
  ThrownError (new_RetryableError (message (new_StorageError operation))).

Definition parseTransactionRow (row : Row) : Transaction.t :=
  {| Transaction.id := row_id row;
     Transaction.status := row_status row;
     Transaction.component_try_statuses := row_component_try_statuses row;
     Transaction.created_at := row_created_at row |}.

(** [UPDATE tx_record SET status = ? WHERE id = ?]. *)
Definition update_status (status : TXStatus) (txID : N) (rows : list Row)
    : list Row :=
  (fun row =>
     if decide (row_id row = txID)
     then mkRow (row_id row) status (row_component_try_statuses row)
                (row_created_at row)
     else row) <$> rows.

(** [JSON_REPLACE(doc, '$."componentID".tryStatus', status)]: an existing
    value is replaced, a missing path leaves the document as it is. *)
Definition JSON_REPLACE_tryStatus (doc : ComponentTryStatusRecord)
    (componentID : string) (status : ComponentTryStatus)
    : ComponentTryStatusRecord :=
  match doc !! componentID with
  | Some entry => <[componentID := mkEntry (componentId entry) status]> doc
  | None => doc
  end.

Definition update_component (componentID : string) (status : ComponentTryStatus)
    (txID : N) (rows : list Row) : list Row :=
  (fun row =>
     if decide (row_id row = txID)
     then mkRow (row_id row) (row_status row)
                (JSON_REPLACE_tryStatus (row_component_try_statuses row)
                                        componentID status)
                (row_created_at row)
     else row) <$> rows.

(** [affectedRows] of an [UPDATE ... WHERE id = ?]: the rows the [WHERE]
    clause matches (mysql2 connects with the FOUND_ROWS flag). *)
Definition affectedRows (txID : N) (rows : list Row) : nat :=
  length (filter (fun row => row_id row = txID) rows).

(** The order of [ORDER BY created_at ASC]. *)
Definition created_at_ASC (r1 r2 : Row) : Prop :=
  row_created_at r1 ≤ row_created_at r2.

#[global] Instance created_at_ASC_dec r1 r2 : Decision (created_at_ASC r1 r2).
Proof. unfold created_at_ASC. apply _. Defined.

(** [SELECT * FROM tx_record WHERE status = ? ORDER BY created_at ASC
    LIMIT 100], with [TXStatus.TXHanging] for the placeholder. *)
Definition select_hanging (rows : list Row) : list Row :=
  take 100
    (merge_sort created_at_ASC
       (filter (fun row => row_status row = TXHanging) rows)).

(** [SELECT * FROM tx_record WHERE id = ?]. *)
Definition select_by_id (txID : N) (rows : list Row) : list Row :=
  filter (fun row => row_id row = txID) rows.

Section store.
(** The values of [Math.random()] seen by the retry helper. *)
Variable random : nat -> Q.

Definition CreateTx (components : list TccComponent.t) (pool : Pool)
    : Run (St := Pool) (T := N) :=
  withRetry
    (fun _ pool =>
       let '(fault, pool) := next_fault pool in
       if fault then (Rejected 0 (storage_failure "CreateTx"), pool)
       else
         let insertId := auto_increment pool in
         let pool :=
           {| tx_record :=
                tx_record pool ++
                  [mkRow insertId TXHanging (tryStatusMap components) (now pool)];
              auto_increment := N.succ insertId;
              faults := faults pool;
              now := now pool |} in
         if decide (insertId = 0%N)
         then (Rejected 0 (storage_failure "CreateTx"), pool)
         else (Fulfilled 0 insertId, pool))
    random no_overrides pool.

Definition TXUpdateComponentStatus (txID : N) (componentID : string)
    (accept : bool) (pool : Pool) : Run (St := Pool) (T := unit) :=
  withRetry
    (fun _ pool =>
       let '(fault, pool) := next_fault pool in
       if fault
       then (Rejected 0 (storage_failure "TXUpdateComponentStatus"), pool)
       else
         let status := if accept then TrySuccessful else TryFailure in
         let rows := tx_record pool in
         let pool := with_table pool (update_component componentID status txID rows) in
         if decide (affectedRows txID rows = 0%nat)
         then (Rejected 0 (ThrownError (new_TransactionNotFoundError txID)), pool)
         else (Fulfilled 0 (), pool))
    random no_overrides pool.

Definition TXSubmit (txID : N) (success : bool) (pool : Pool)
    : Run (St := Pool) (T := unit) :=
  withRetry
    (fun _ pool =>
       let '(fault, pool) := next_fault pool in
       if fault then (Rejected 0 (storage_failure "TXSubmit"), pool)
       else
         let status := if success then TXSuccessful else TXFailure in
         let rows := tx_record pool in
         let pool := with_table pool (update_status status txID rows) in
         if decide (affectedRows txID rows = 0%nat)
         then (Rejected 0 (ThrownError (new_TransactionNotFoundError txID)), pool)
         else (Fulfilled 0 (), pool))
    random no_overrides pool.

Definition GetHangingTXs (pool : Pool)
    : Run (St := Pool) (T := list Transaction.t) :=
  withRetry
    (fun _ pool =>
       let '(fault, pool) := next_fault pool in
       if fault then (Rejected 0 (storage_failure "GetHangingTXs"), pool)
       else
         let rows := select_hanging (tx_record pool) in
         (Fulfilled 0 (parseTransactionRow <$> rows), pool))
    random no_overrides pool.

Definition GetTX (txID : N) (pool : Pool)
    : Run (St := Pool) (T := Transaction.t) :=
  withRetry
    (fun _ pool =>
       let '(fault, pool) := next_fault pool in
       if fault then (Rejected 0 (storage_failure "GetTX"), pool)
       else
         match select_by_id txID (tx_record pool) with
         | [] => (Rejected 0 (ThrownError (new_TransactionNotFoundError txID)), pool)
         | row :: _ => (Fulfilled 0 (parseTransactionRow row), pool)
         end)
    random no_overrides pool.
End store.

End MySQLTxStore.

(* ===================================================================== *)
(** ** JavaScript [Map] *)
(* ===================================================================== *)

(** A [Map<K, V>]: its entries in insertion order. *)
Section JsMap.
Context {K V : Type} `{EqDecision K}.

Fixpoint Map_get (m : list (K * V)) (k : K) : option V :=
  match m with
  | [] => None
  | (k', v) :: m' => if decide (k' = k) then Some v else Map_get m' k
  end.

Definition Map_has (m : list (K * V)) (k : K) : bool :=
  bool_decide (is_Some (Map_get m k)).

(** [m.set(k, v)]: an existing key keeps its place. *)
Fixpoint Map_set (m : list (K * V)) (k : K) (v : V) : list (K * V) :=
  match m with
  | [] => [(k, v)]
  | (k', v') :: m' =>
      if decide (k' = k) then (k, v) :: m' else (k', v') :: Map_set m' k v
  end.

Definition Map_values (m : list (K * V)) : list V := m.*2.

Definition Map_keys (m : list (K * V)) : list K := m.*1.

Definition Map_size (m : list (K * V)) : nat := length m.
End JsMap.

(* ===================================================================== *)
(** ** tx_store.ts *)
(* ===================================================================== *)

(** The result of a synchronous call, or of awaiting a store call. *)
Inductive Result (T : Type) : Type :=
| Ok (value : T)
| Throw (reason : Thrown).

Arguments Ok {T} value.
Arguments Throw {T} reason.

(** The [TxStore] interface, over the state [St] of an implementation.
    The manager awaits every store call; a store call is one atomic step
    that takes no time.  The two queries only read.  [Lock] and [Unlock]
    serve the monitor loop alone and are left out. *)
Module TxStore.
Record t (St : Type) : Type := mk {
  CreateTx : list TccComponent.t -> St -> Result N * St;
  TXUpdateComponentStatus : N -> string -> bool -> St -> Result unit * St;
  TXSubmit : N -> bool -> St -> Result unit * St;
  GetHangingTXs : St -> Result (list Transaction.t);
  GetTX : N -> St -> Result Transaction.t
}.
Arguments CreateTx {St}.
Arguments TXUpdateComponentStatus {St}.
Arguments TXSubmit {St}.
Arguments GetHangingTXs {St}.
Arguments GetTX {St}.
End TxStore.

(* ===================================================================== *)
(** ** tx_manager.ts *)
(* ===================================================================== *)

Module TxManager.

Abbreviation Components := (list (string * TccComponent.t)).

(** [register(component)]: the outcome and the registry afterwards. *)
Definition register (component : TccComponent.t) (components : Components)
    : Result unit * Components :=
  if Map_has components (TccComponent.id component)
  then (Throw (ThrownError
                 (new_DuplicateComponentError (TccComponent.id component))),
        components)
  else (Ok (), Map_set components (TccComponent.id component) component).

Definition getComponents (components : Components) : list TccComponent.t :=
  Map_values components.

(** Reading [.tryStatus] of [undefined]. *)
Definition undefined_tryStatus : Thrown :=
  ThrownError
    (mkError TypeError
       "Cannot read properties of undefined (reading 'tryStatus')").

(** One of the two [for] loops of [getStatus]: is there a component whose
    recorded status is [wanted]?  The loop stops at the first hit. *)
Fixpoint some_tryStatus (wanted : ComponentTryStatus)
    (components : list TccComponent.t) (transaction : Transaction.t)
    : Result bool :=
  match components with
  | [] => Ok false
  | component :: rest =>
      match Transaction.component_try_statuses transaction
              !! TccComponent.id component with
      | None => Throw undefined_tryStatus
      | Some entry =>
          if decide (tryStatus entry = wanted) then Ok true
          else some_tryStatus wanted rest transaction
      end
  end.

Definition getStatus (components : Components) (transaction : Transaction.t)
    : Result TXStatus :=
  match some_tryStatus TryFailure (getComponents components) transaction with
  | Throw e => Throw e
  | Ok true => Ok TXFailure
  | Ok false =>
      match some_tryStatus TryHanging (getComponents components) transaction with
      | Throw e => Throw e
      | Ok true => Ok TXHanging
      | Ok false => Ok TXSuccessful
      end
  end.

(** The call a second-phase job makes on a component. *)
Definition second_phase_call (phase : Phase) (component : TccComponent.t)
    (k : nat) : Settled unit :=
  match phase with
  | phase_try => TccComponent.try component
  | phase_confirm => TccComponent.confirm component k
  | phase_cancel => TccComponent.cancel component k
  end.

(** The operation handed to [withRetry] by a confirm or cancel job: a
    failure that [isRetryableError] accepts is turned into a
    [RetryableError], any other failure is thrown again as it is. *)
Definition guarded_call (phase : Phase) (component : TccComponent.t)
    (attempt : nat) (_ : unit) : Settled unit * unit :=
  match second_phase_call phase component attempt with
  | Fulfilled d _ => (Fulfilled d (), ())
  | Rejected d error =>
      if isRetryableError (wrapError error (show_phase phase))
      then (Rejected d
              (ThrownError
                 (new_RetryableError
                    ("组件 " +:+ TccComponent.id component +:+ " "
                       +:+ show_phase phase +:+ " 失败: " +:+ String_ error))),
            ())
      else (Rejected d error, ())
  | Pending => (Pending, ())
  end.

(** The argument of [advanceTransactionProgress]. *)
Inductive Query : Type :=
| ById (txID : N)
| ByTransaction (transaction : Transaction.t).

Section manager.
Context {St : Type}.
Variable txStore : TxStore.t St.
Variable config : TxConfig.

(** [random id k]: the value of [Math.random()] drawn by the job of
    component [id] after its attempt number [k]. *)
Variable random : string -> nat -> Q.

(** One job of a fan-out. *)
Definition job (phase : Phase) (component : TccComponent.t)
    : Run (St := unit) (T := unit) :=
  withRetry (guarded_call phase component)
            (random (TccComponent.id component)) no_overrides ().

(** What one invocation of [advanceTransactionProgress] did:
    the value of [getStatus] if it was reached and returned, the jobs
    of the fan-out in registration order, the [TXSubmit] call made
    with the instant at which it was made, the way the invocation
    settles and the store it leaves. *)
Record AdvanceRun : Type := mkAdvanceRun {
  evaluated : option TXStatus;
  jobs : list (string * Run (St := unit) (T := unit));
  submitted : option (N * bool * Q);
  outcome : Settled unit;
  store : St
}.

(** A confirm or cancel branch of [advanceTransactionProgress]. *)
Definition fan_out (phase : Phase) (success : bool) (txStatus : TXStatus)
    (components : Components) (transaction : Transaction.t) (s : St)
    : AdvanceRun :=
  let jobs :=
    (fun component => (TccComponent.id component, job phase component))
      <$> getComponents components in
  match Promise_all ((fun j => settled j.2) <$> jobs) with
  | Rejected t e => mkAdvanceRun (Some txStatus) jobs None (Rejected t e) s
  | Pending => mkAdvanceRun (Some txStatus) jobs None Pending s
  | Fulfilled t _ =>
      match TxStore.TXSubmit txStore (Transaction.id transaction) success s with
      | (Ok _, s') =>
          mkAdvanceRun (Some txStatus) jobs
            (Some (Transaction.id transaction, success, t)) (Fulfilled t ()) s'
      | (Throw e, s') =>
          mkAdvanceRun (Some txStatus) jobs
            (Some (Transaction.id transaction, success, t)) (Rejected t e) s'
      end
  end.

Definition advanceTransactionProgress (components : Components)
    (query : Query) (s : St) : AdvanceRun :=
  let fetched :=
    match query with
    | ById txID => TxStore.GetTX txStore txID s
    | ByTransaction transaction => Ok transaction
    end in
  match fetched with
  | Throw e => mkAdvanceRun None [] None (Rejected 0 e) s
  | Ok transaction =>
      match getStatus components transaction with
      | Throw e => mkAdvanceRun None [] None (Rejected 0 e) s
      | Ok TXHanging => mkAdvanceRun (Some TXHanging) [] None (Fulfilled 0 ()) s
      | Ok TXSuccessful =>
          fan_out phase_confirm true TXSuccessful components transaction s
      | Ok TXFailure =>
          fan_out phase_cancel false TXFailure components transaction s
      end
  end.

(** The body of one try job, run at the instant [try] settles: the
    status update, and the way the job settles. *)
Definition try_job (txId : N) (component : TccComponent.t) (s : St)
    : Settled unit * St :=
  let id := TccComponent.id component in
  let failed d e s :=
    let error := wrapError e ("组件 " +:+ id +:+ " try 阶段") in
    let '(_, s) := TxStore.TXUpdateComponentStatus txStore txId id false s in
    (Rejected d
       (ThrownError (new_ComponentExecutionError id phase_try (message error))),
     s) in
  match TccComponent.try component with
  | Pending => (Pending, s)
  | Rejected d e => failed d e s
  | Fulfilled d _ =>
      match TxStore.TXUpdateComponentStatus txStore txId id true s with
      | (Ok _, s) => (Fulfilled d (), s)
      | (Throw e, s) => failed d e s
      end
  end.

(** Jobs ordered by the instant their [try] settles; jobs that settle
    at the same instant keep their registration order, jobs whose
    [try] never settles come last. *)
Definition settles_before (c1 c2 : TccComponent.t) : bool :=
  match settled_at (TccComponent.try c1), settled_at (TccComponent.try c2) with
  | Some t1, Some t2 => negb (Qle_bool t2 t1)
  | Some _, None => true
  | None, _ => false
  end.

Fixpoint schedule_insert (c : TccComponent.t) (l : list TccComponent.t)
    : list TccComponent.t :=
  match l with
  | [] => [c]
  | c' :: l' =>
      if settles_before c' c then c' :: schedule_insert c l' else c :: l
  end.

Definition schedule (components : list TccComponent.t) : list TccComponent.t :=
  foldr schedule_insert [] components.

(** The try phase up to the moment [Promise.all(jobs)] settles: the
    jobs are run in the order of [schedule] until one of them rejects
    or the timer fires (the timer was armed first and wins a tie).
    Returns the jobs that settled by then, and the store. *)
Fixpoint race (deadline : Q) (txId : N) (scheduled : list TccComponent.t)
    (s : St) : list (string * Settled unit) * St :=
  match scheduled with
  | [] => ([], s)
  | component :: rest =>
      match settled_at (TccComponent.try component) with
      | None => ([], s)
      | Some d =>
          if Qle_bool deadline d then ([], s)
          else
            let '(r, s) := try_job txId component s in
            if is_rejected r then ([(TccComponent.id component, r)], s)
            else
              let '(rs, s) := race deadline txId rest s in
              ((TccComponent.id component, r) :: rs, s)
      end
  end.

(** The job promises as they stand when the race is over, in
    registration order. *)
Definition observed (settled_jobs : list (string * Settled unit))
    (components : list TccComponent.t) : list (Settled unit) :=
  (fun component =>
     default Pending (Map_get settled_jobs (TccComponent.id component)))
    <$> components.

(** What one invocation of [startTransaction] did: the way
    [Promise.all(jobs)] settles if it was reached, the invocation of
    [advanceTransactionProgress], the way the call settles and the
    store at that moment.  Try jobs that are still running when the
    race is over are abandoned; what they write later is not part of
    the run. *)
Record StartRun : Type := mkStartRun {
  try_phase : option (Settled (list unit));
  advance : option AdvanceRun;
  returned : Settled (N * bool);
  final_store : St
}.

Definition startTransaction (components : Components) (s : St) : StartRun :=
  let registered := getComponents components in
  if decide (length registered = 0%nat)
  then mkStartRun None None
         (Rejected 0 (ThrownError (new_Error "没有注册的组件，无法启动事务"))) s
  else
    match TxStore.CreateTx txStore registered s with
    | (Throw error, s) => mkStartRun None None (Rejected 0 error) s
    | (Ok txId, s) =>
        let timeout := timeout config in
        let timer : Settled unit :=
          Rejected (inject_Z timeout)
            (ThrownError (new_TransactionTimeoutError txId timeout)) in
        let '(settled_jobs, s) :=
          race (inject_Z timeout) txId (schedule registered) s in
        let all := Promise_all (timer :: observed settled_jobs registered) in
        let transactionSuccess := is_fulfilled all in
        match settled_at all with
        | None => mkStartRun (Some all) None Pending s
        | Some t =>
            let run := advanceTransactionProgress components (ById txId) s in
            mkStartRun (Some all) (Some run)
              match settled_at (outcome run) with
              | None => Pending
              | Some t' => Fulfilled (t + t') (txId, transactionSuccess)
              end
              (store run)
        end
    end.
End manager.

End TxManager.

(* ===================================================================== *)
(** ** tests/tx_manager.test.ts: MockTxStore *)
(* ===================================================================== *)

Module MockTxStore.

(** [clock] is the wall clock read by [new Date()]. *)
Record State : Type := mkState {
  transactions : list (N * Transaction.t);
  nextId : N;
  clock : Z
}.

Definition init : State := mkState [] 1 0.

Definition not_found : Thrown := ThrownError (new_Error "Transaction not found").

(** Writing [.tryStatus] of [undefined]. *)
Definition undefined_entry : Thrown :=
  ThrownError
    (mkError TypeError
       "Cannot set properties of undefined (setting 'tryStatus')").

Definition CreateTx (components : list TccComponent.t) (st : State)
    : Result N * State :=
  let txId := nextId st in
  let transaction :=
    Transaction.mk txId TXHanging (tryStatusMap components) (clock st) in
  (Ok txId,
   mkState (Map_set (transactions st) txId transaction) (N.succ txId) (clock st)).

Definition TXUpdateComponentStatus (txID : N) (componentID : string)
    (accept : bool) (st : State) : Result unit * State :=
  match Map_get (transactions st) txID with
  | None => (Throw not_found, st)
  | Some tx =>
      match Transaction.component_try_statuses tx !! componentID with
      | None => (Throw undefined_entry, st)
      | Some entry =>
          let status := if accept then TrySuccessful else TryFailure in
          let tx :=
            Transaction.mk (Transaction.id tx) (Transaction.status tx)
              (<[componentID := mkEntry (componentId entry) status]>
                 (Transaction.component_try_statuses tx))
              (Transaction.created_at tx) in
          (Ok (), mkState (Map_set (transactions st) txID tx) (nextId st) (clock st))
      end
  end.

Definition TXSubmit (txID : N) (success : bool) (st : State)
    : Result unit * State :=
  match Map_get (transactions st) txID with
  | None => (Throw not_found, st)
  | Some tx =>
      let tx :=
        Transaction.mk (Transaction.id tx)
          (if success then TXSuccessful else TXFailure)
          (Transaction.component_try_statuses tx) (Transaction.created_at tx) in
      (Ok (), mkState (Map_set (transactions st) txID tx) (nextId st) (clock st))
  end.

Definition GetHangingTXs (st : State) : Result (list Transaction.t) :=
  Ok (filter (fun tx => Transaction.status tx = TXHanging)
             (Map_values (transactions st))).

Definition GetTX (txID : N) (st : State) : Result Transaction.t :=
  match Map_get (transactions st) txID with
  | None => Throw not_found
  | Some tx => Ok tx
  end.

Definition store : TxStore.t State :=
  TxStore.mk State CreateTx TXUpdateComponentStatus TXSubmit GetHangingTXs GetTX.

(** [MockTccComponent]: [try] settles after [tryDelay]; each operation
    fails when its flag is set. *)
Definition MockTccComponent (id : string) (shouldTryFail shouldConfirmFail
    shouldCancelFail : bool) (tryDelay : Q) : TccComponent.t :=
  let failing (what : string) : Thrown :=
    ThrownError (new_Error ("Component " +:+ id +:+ " " +:+ what +:+ " failed")) in
  TccComponent.mk id
    (if shouldTryFail then Rejected tryDelay (failing "try")
     else Fulfilled tryDelay ())
    (fun _ => if shouldConfirmFail then Rejected 0 (failing "confirm")
              else Fulfilled 0 ())
    (fun _ => if shouldCancelFail then Rejected 0 (failing "cancel")
              else Fulfilled 0 ()).

End MockTxStore.

(* ===================================================================== *)
(** ** stores/mysql-store.ts: the lock *)
(* ===================================================================== *)


Module MySQLTxStoreLock.

(** The store object: the pool, the two private lock fields, the clock
    read by [Date.now()] and, scripted like the faults of the driver,
    the value of the single column of the first row each scalar query
    that runs will answer ([None] for [NULL] or no row).  The lock key
    is kept by the two values its text is made of: [Date.now()] and
    [Math.random()]. *)
Record Store : Type := mkStore {
  pool : MySQLTxStore.Pool;
  lockKey : option (Z * Q);
  lockExpireTime : option Z;
  answers : list (option Z);
  Date_now : Z
}.

Definition with_pool (db : Store) (pool' : MySQLTxStore.Pool) : Store :=
  {| pool := pool'; lockKey := lockKey db; lockExpireTime := lockExpireTime db;
     answers := answers db; Date_now := Date_now db |}.

Definition next_answer (db : Store) : option Z * Store :=
  match answers db with
  | [] => (None, db)
  | a :: rest =>
      (a, {| pool := pool db; lockKey := lockKey db;
             lockExpireTime := lockExpireTime db; answers := rest;
             Date_now := Date_now db |})
  end.

(** [this.pool.query(sql)] for a scalar query: the driver rejects the
    statement, or it runs and answers. *)
Definition query (db : Store) : option (option Z) * Store :=
  let '(fault, pool') := MySQLTxStore.next_fault (pool db) in
  if fault then (None, with_pool db pool')
  else let '(answer, db) := next_answer (with_pool db pool') in (Some answer, db).

Section store.
(** The values of [Math.random()] seen by the retry helper, and the one
    drawn for the lock key on each attempt. *)
Variable random : nat -> Q.
Variable key_random : nat -> Q.

End store.

Definition Unlock (db : Store) : Settled unit * Store :=
  match lockKey db with
  | None => (Fulfilled 0 (), db)
  | Some _ =>
      let '(_, db) := query db in
      (Fulfilled 0 (),
       {| pool := pool db; lockKey := None; lockExpireTime := None;
          answers := answers db; Date_now := Date_now db |})
  end.

End MySQLTxStoreLock.

(* ===================================================================== *)
(** ** network-component.ts *)
(* ===================================================================== *)

Module NetworkTccComponent.

(** What comes back from [axiosInstance.post(url, body)], with the
    instant at which it does: a response, by its status, the truth
    value of [data?.success] and the text of [data?.message] when it
    is truthy; an error for which [axios.isAxiosError] holds, by its
    [code], its [response?.status] and the error object itself; any
    other thrown value; or nothing at all. *)
Inductive Reply : Type :=
| Response (at_ : Q) (status : Z) (success : bool) (message_ : option string)
| AxiosError (at_ : Q) (code : option string) (status : option Z)
             (error : JsError)
| OtherError (at_ : Q) (error : Thrown)
| NoReply.

(** [response.data?.message || '未知错误']. *)
Definition message_or_unknown (message_ : option string) : string :=
  match message_ with
  | Some m => if decide (m = "") then "未知错误" else m
  | None => "未知错误"
  end.

(** [error.code === 'ECONNREFUSED' || error.code === 'ETIMEDOUT' ||
    (error.response?.status && error.response.status >= 500)]. *)
Definition network_failure (code : option string) (status : option Z) : bool :=
  bool_decide (code = Some "ECONNREFUSED") ||
  bool_decide (code = Some "ETIMEDOUT") ||
  match status with
  | Some st => bool_decide (st <> 0) && bool_decide (500 <= st)
  | None => false
  end.

(** The body shared by [try] and [confirm]; [phase] is the word the
    messages carry. *)
Definition first_phase (phase : string) (reply : Reply) : Settled unit :=
  match reply with
  | Response d status success message_ =>
      if bool_decide (status <> 200) || negb success
      then Rejected d
             (ThrownError
                (new_RetryableError
                   (phase +:+ " 阶段失败: " +:+ message_or_unknown message_)))
      else Fulfilled d ()
  | AxiosError d code status error =>
      if network_failure code status
      then Rejected d
             (ThrownError
                (new_RetryableError
                   ("网络组件 " +:+ phase +:+ " 阶段网络错误: "
                      +:+ message error)))
      else Rejected d (ThrownError error)
  | OtherError d error => Rejected d error
  | NoReply => Pending
  end.

Definition try (reply : Reply) : Settled unit := first_phase "Try" reply.

Definition confirm (reply : Reply) : Settled unit := first_phase "Confirm" reply.

(** [cancel] logs a warning for whatever goes wrong. *)
Definition cancel (reply : Reply) : Settled unit :=
  match reply with
  | Response d _ _ _ | AxiosError d _ _ _ | OtherError d _ => Fulfilled d ()
  | NoReply => Pending
  end.

(** The component, given what each of its requests comes back with;
    the requests of the second phase are numbered by attempt. *)
Definition new (id : string) (tryReply : Reply)
    (confirmReply cancelReply : nat -> Reply) : TccComponent.t :=
  TccComponent.mk id (try tryReply)
    (fun attempt => confirm (confirmReply attempt))
    (fun attempt => cancel (cancelReply attempt)).

End NetworkTccComponent.

(* ===================================================================== *)
(** ** metrics.ts *)
(* ===================================================================== *)

Module metrics.

Record TccMetrics : Type := mkTccMetrics {
  transactionStarted : N;
  transactionSuccess : N;
  transactionFailure : N;
  transactionTimeout : N;
  componentTrySuccess : N;
  componentTryFailure : N;
  componentConfirmSuccess : N;
  componentConfirmFailure : N;
  componentCancelSuccess : N;
  componentCancelFailure : N;
  retryCount : N;
  averageTransactionDuration : Q;
  hangingTransactionCount : N
}.

(** [InMemoryMetricsCollector]: its two private fields. *)
Record InMemoryMetricsCollector : Type := mkCollector {
  metrics : TccMetrics;
  transactionDurations : list Q
}.

Definition maxDurationSamples : nat := 1000.

Definition reset : InMemoryMetricsCollector :=
  mkCollector (mkTccMetrics 0 0 0 0 0 0 0 0 0 0 0 0 0) [].

(** [this.metrics.<counter>++] for each of the counters. *)
Definition recordTransactionStarted (c : InMemoryMetricsCollector)
    : InMemoryMetricsCollector :=
  let m := metrics c in
  mkCollector
    (mkTccMetrics (transactionStarted m + 1) (transactionSuccess m)
       (transactionFailure m) (transactionTimeout m) (componentTrySuccess m)
       (componentTryFailure m) (componentConfirmSuccess m)
       (componentConfirmFailure m) (componentCancelSuccess m)
       (componentCancelFailure m) (retryCount m)
       (averageTransactionDuration m) (hangingTransactionCount m))
    (transactionDurations c).

(** [transactionDurations.reduce((sum, d) => sum + d, 0)]. *)
Definition sum (durations : list Q) : Q := foldl Qplus 0%Q durations.

Definition recordDuration (durationMs : Q) (c : InMemoryMetricsCollector)
    : InMemoryMetricsCollector :=
  let pushed := transactionDurations c ++ [durationMs] in
  let durations :=
    if decide (maxDurationSamples < length pushed)%nat then tail pushed
    else pushed in
  let m := metrics c in
  mkCollector
    (mkTccMetrics (transactionStarted m) (transactionSuccess m)
       (transactionFailure m) (transactionTimeout m) (componentTrySuccess m)
       (componentTryFailure m) (componentConfirmSuccess m)
       (componentConfirmFailure m) (componentCancelSuccess m)
       (componentCancelFailure m) (retryCount m)
       (sum durations / inject_Z (Z.of_nat (length durations)))
       (hangingTransactionCount m))
    durations.

Definition recordTransactionSuccess (durationMs : Q)
    (c : InMemoryMetricsCollector) : InMemoryMetricsCollector :=
  let m := metrics c in
  recordDuration durationMs
    (mkCollector
       (mkTccMetrics (transactionStarted m) (transactionSuccess m + 1)
          (transactionFailure m) (transactionTimeout m) (componentTrySuccess m)
          (componentTryFailure m) (componentConfirmSuccess m)
          (componentConfirmFailure m) (componentCancelSuccess m)
          (componentCancelFailure m) (retryCount m)
          (averageTransactionDuration m) (hangingTransactionCount m))
       (transactionDurations c)).

Definition recordTransactionFailure (durationMs : Q)
    (c : InMemoryMetricsCollector) : InMemoryMetricsCollector :=
  let m := metrics c in
  recordDuration durationMs
    (mkCollector
       (mkTccMetrics (transactionStarted m) (transactionSuccess m)
          (transactionFailure m + 1) (transactionTimeout m)
          (componentTrySuccess m) (componentTryFailure m)
          (componentConfirmSuccess m) (componentConfirmFailure m)
          (componentCancelSuccess m) (componentCancelFailure m) (retryCount m)
          (averageTransactionDuration m) (hangingTransactionCount m))
       (transactionDurations c)).

Definition recordTransactionTimeout (durationMs : Q)
    (c : InMemoryMetricsCollector) : InMemoryMetricsCollector :=
  let m := metrics c in
  recordDuration durationMs
    (mkCollector
       (mkTccMetrics (transactionStarted m) (transactionSuccess m)
          (transactionFailure m) (transactionTimeout m + 1)
          (componentTrySuccess m) (componentTryFailure m)
          (componentConfirmSuccess m) (componentConfirmFailure m)
          (componentCancelSuccess m) (componentCancelFailure m) (retryCount m)
          (averageTransactionDuration m) (hangingTransactionCount m))
       (transactionDurations c)).

Definition recordComponentTry (componentId : string) (success : bool)
    (c : InMemoryMetricsCollector) : InMemoryMetricsCollector :=
  let m := metrics c in
  mkCollector
    (mkTccMetrics (transactionStarted m) (transactionSuccess m)
       (transactionFailure m) (transactionTimeout m)
       (if success then componentTrySuccess m + 1 else componentTrySuccess m)
       (if success then componentTryFailure m else componentTryFailure m + 1)
       (componentConfirmSuccess m) (componentConfirmFailure m)
       (componentCancelSuccess m) (componentCancelFailure m) (retryCount m)
       (averageTransactionDuration m) (hangingTransactionCount m))
    (transactionDurations c).

Definition recordComponentConfirm (componentId : string) (success : bool)
    (c : InMemoryMetricsCollector) : InMemoryMetricsCollector :=
  let m := metrics c in
  mkCollector
    (mkTccMetrics (transactionStarted m) (transactionSuccess m)
       (transactionFailure m) (transactionTimeout m) (componentTrySuccess m)
       (componentTryFailure m)
       (if success then componentConfirmSuccess m + 1
        else componentConfirmSuccess m)
       (if success then componentConfirmFailure m
        else componentConfirmFailure m + 1)
       (componentCancelSuccess m) (componentCancelFailure m) (retryCount m)
       (averageTransactionDuration m) (hangingTransactionCount m))
    (transactionDurations c).

Definition recordComponentCancel (componentId : string) (success : bool)
    (c : InMemoryMetricsCollector) : InMemoryMetricsCollector :=
  let m := metrics c in
  mkCollector
    (mkTccMetrics (transactionStarted m) (transactionSuccess m)
       (transactionFailure m) (transactionTimeout m) (componentTrySuccess m)
       (componentTryFailure m) (componentConfirmSuccess m)
       (componentConfirmFailure m)
       (if success then componentCancelSuccess m + 1
        else componentCancelSuccess m)
       (if success then componentCancelFailure m
        else componentCancelFailure m + 1)
       (retryCount m) (averageTransactionDuration m)
       (hangingTransactionCount m))
    (transactionDurations c).

Definition recordRetry (operation : string) (c : InMemoryMetricsCollector)
    : InMemoryMetricsCollector :=
  let m := metrics c in
  mkCollector
    (mkTccMetrics (transactionStarted m) (transactionSuccess m)
       (transactionFailure m) (transactionTimeout m) (componentTrySuccess m)
       (componentTryFailure m) (componentConfirmSuccess m)
       (componentConfirmFailure m) (componentCancelSuccess m)
       (componentCancelFailure m) (retryCount m + 1)
       (averageTransactionDuration m) (hangingTransactionCount m))
    (transactionDurations c).

Definition recordHangingTransactionCount (count : N)
    (c : InMemoryMetricsCollector) : InMemoryMetricsCollector :=
  let m := metrics c in
  mkCollector
    (mkTccMetrics (transactionStarted m) (transactionSuccess m)
       (transactionFailure m) (transactionTimeout m) (componentTrySuccess m)
       (componentTryFailure m) (componentConfirmSuccess m)
       (componentConfirmFailure m) (componentCancelSuccess m)
       (componentCancelFailure m) (retryCount m)
       (averageTransactionDuration m) count)
    (transactionDurations c).

Definition getMetrics (c : InMemoryMetricsCollector) : TccMetrics := metrics c.

Definition getSuccessRate (c : InMemoryMetricsCollector) : Q :=
  let m := metrics c in
  let total :=
    (transactionSuccess m + transactionFailure m + transactionTimeout m)%N in
  if decide (0 < total)%N
  then inject_Z (Z.of_N (transactionSuccess m)) / inject_Z (Z.of_N total)
  else 0.

End metrics.

(* ===================================================================== *)
(** * Vocabulary of the statements *)
(* ===================================================================== *)




(** The four substrings [isRetryableError] looks for. *)
Definition has_marker (s : string) : bool :=
  includes s "ECONNREFUSED" || includes s "ETIMEDOUT" ||
  includes s "ENOTFOUND" || includes s "timeout".

Fixpoint occurs (c : ascii) (p : string) : bool :=
  match p with
  | EmptyString => false
  | String c' p' => Ascii.eqb c c' || occurs c p'
  end.

(** No character of [s] occurs in [p]. *)
Fixpoint avoids (s p : string) : bool :=
  match s with
  | EmptyString => true
  | String c s' => negb (occurs c p) && avoids s' p
  end.

(** The status column value [TXSubmit] writes. *)
Definition submitted_status (success : bool) : TXStatus :=
  if success then TXSuccessful else TXFailure.

(** The transaction [txID] is stored and already carries [status]. *)
Definition submitted (txID : N) (status : TXStatus)
    (rows : list MySQLTxStore.Row) : Prop :=
  MySQLTxStore.affectedRows txID rows <> 0%nat /\
  forall row, row ∈ rows -> MySQLTxStore.row_id row = txID ->
    MySQLTxStore.row_status row = status.

(** The number of statements the driver rejects in a row from now on. *)
Fixpoint leading_faults (fs : list bool) : nat :=
  match fs with
  | true :: fs' => S (leading_faults fs')
  | _ => O
  end.


(** The second-phase operation that goes with a submitted value. *)
Definition phase_of (success : bool) : Phase :=
  if success then phase_confirm else phase_cancel.

(** The jobs of a fan-out, in registration order. *)
Definition fan_out_jobs (random : string -> nat -> Q)
    (components : TxManager.Components) (phase : Phase)
    : list (string * Run (St := unit) (T := unit)) :=
  (fun component =>
     (TccComponent.id component, TxManager.job random phase component))
    <$> TxManager.getComponents components.

(** ** The MySQL store, further vocabulary *)

(** A pool as MySQL keeps it: the ids of [tx_record] are distinct and
    below the next AUTO_INCREMENT value, which is not 0. *)
Definition well_formed (pool : MySQLTxStore.Pool) : Prop :=
  NoDup (MySQLTxStore.row_id <$> MySQLTxStore.tx_record pool) /\
  Forall (fun id => (id < MySQLTxStore.auto_increment pool)%N)
         (MySQLTxStore.row_id <$> MySQLTxStore.tx_record pool) /\
  MySQLTxStore.auto_increment pool <> 0%N.

(** The pool once the driver has rejected [k] statements and run one. *)
Definition after_faults (k : nat) (pool : MySQLTxStore.Pool) : MySQLTxStore.Pool :=
  MySQLTxStore.mkPool (MySQLTxStore.tx_record pool)
    (MySQLTxStore.auto_increment pool)
    (tail (drop k (MySQLTxStore.faults pool))) (MySQLTxStore.now pool).

(** The pool once the driver has rejected [n] statements. *)
Definition after_rejections (n : nat) (pool : MySQLTxStore.Pool)
    : MySQLTxStore.Pool :=
  MySQLTxStore.mkPool (MySQLTxStore.tx_record pool)
    (MySQLTxStore.auto_increment pool)
    (drop n (MySQLTxStore.faults pool)) (MySQLTxStore.now pool).

(** The same settlement, [t] later. *)
Definition retime {T : Type} (t : Q) (o : Settled T) : Settled T :=
  match o with
  | Fulfilled d v => Fulfilled (t + d) v
  | Rejected d e => Rejected (t + d) e
  | Pending => Pending
  end.

(** The trace of [n] failed attempts, numbered from [a], each followed
    by its sleep, and of one more attempt. *)
Definition retry_trace (random : nat -> Q) (finalConfig : RetryConfig)
    (a n : nat) : list RetryEvent :=
  flat_map (fun j => [Attempt j; Sleep (finalDelay random finalConfig j)])
           (seq a n)
    ++ [Attempt (a + n)].

(** The number of attempts in a trace. *)
Fixpoint attempts (tr : list RetryEvent) : nat :=
  match tr with
  | [] => O
  | Attempt _ :: tr' => S (attempts tr')
  | Sleep _ :: tr' => attempts tr'
  end.

(** The number of sleeps in a trace. *)
Fixpoint sleeps_of (tr : list RetryEvent) : nat :=
  match tr with
  | [] => O
  | Attempt _ :: tr' => sleeps_of tr'
  | Sleep _ :: tr' => S (sleeps_of tr')
  end.

(** The shape of the operations the store hands to [withRetry]: the
    driver rejects the statement, which the [catch] block turns into a
    retryable storage failure, or the statement runs. *)
Definition scripted {T : Type} (operation : string)
    (body : MySQLTxStore.Pool -> Settled T * MySQLTxStore.Pool)
    : nat -> MySQLTxStore.Pool -> Settled T * MySQLTxStore.Pool :=
  fun _ pool =>
    let '(fault, pool) := MySQLTxStore.next_fault pool in
    if fault then (Rejected 0 (MySQLTxStore.storage_failure operation), pool)
    else body pool.

(** What each operation does when its statement runs. *)
Definition CreateTx_body (components : list TccComponent.t)
    (pool : MySQLTxStore.Pool) : Settled N * MySQLTxStore.Pool :=
  let insertId := MySQLTxStore.auto_increment pool in
  let pool :=
    MySQLTxStore.mkPool
      (MySQLTxStore.tx_record pool ++
         [MySQLTxStore.mkRow insertId TXHanging (tryStatusMap components)
            (MySQLTxStore.now pool)])
      (N.succ insertId) (MySQLTxStore.faults pool) (MySQLTxStore.now pool) in
  if decide (insertId = 0%N)
  then (Rejected 0 (MySQLTxStore.storage_failure "CreateTx"), pool)
  else (Fulfilled 0 insertId, pool).

Definition TXUpdateComponentStatus_body (txID : N) (componentID : string)
    (accept : bool) (pool : MySQLTxStore.Pool)
    : Settled unit * MySQLTxStore.Pool :=
  let status := if accept then TrySuccessful else TryFailure in
  let rows := MySQLTxStore.tx_record pool in
  let pool :=
    MySQLTxStore.with_table pool
      (MySQLTxStore.update_component componentID status txID rows) in
  if decide (MySQLTxStore.affectedRows txID rows = 0%nat)
  then (Rejected 0 (ThrownError (new_TransactionNotFoundError txID)), pool)
  else (Fulfilled 0 (), pool).

Definition TXSubmit_body (txID : N) (success : bool) (pool : MySQLTxStore.Pool)
    : Settled unit * MySQLTxStore.Pool :=
  let status := if success then TXSuccessful else TXFailure in
  let rows := MySQLTxStore.tx_record pool in
  let pool :=
    MySQLTxStore.with_table pool (MySQLTxStore.update_status status txID rows) in
  if decide (MySQLTxStore.affectedRows txID rows = 0%nat)
  then (Rejected 0 (ThrownError (new_TransactionNotFoundError txID)), pool)
  else (Fulfilled 0 (), pool).

Definition GetHangingTXs_body (pool : MySQLTxStore.Pool)
    : Settled (list Transaction.t) * MySQLTxStore.Pool :=
  (Fulfilled 0
     (MySQLTxStore.parseTransactionRow
        <$> MySQLTxStore.select_hanging (MySQLTxStore.tx_record pool)),
   pool).

Definition GetTX_body (txID : N) (pool : MySQLTxStore.Pool)
    : Settled Transaction.t * MySQLTxStore.Pool :=
  match MySQLTxStore.select_by_id txID (MySQLTxStore.tx_record pool) with
  | [] => (Rejected 0 (ThrownError (new_TransactionNotFoundError txID)), pool)
  | row :: _ => (Fulfilled 0 (MySQLTxStore.parseTransactionRow row), pool)
  end.


(** A call whose statement ran on attempt number [k] and threw
    [TransactionNotFoundError], leaving the table as it was. *)
Definition not_found_at {T : Type} (random : nat -> Q) (txID : N) (k : nat)
    (pool : MySQLTxStore.Pool) (run : Run (St := MySQLTxStore.Pool) (T := T))
    : Prop :=
  exists t,
    run = mkRun (Rejected t (ThrownError (new_TransactionNotFoundError txID)))
                (after_faults k pool)
                (retry_trace random DEFAULT_RETRY_CONFIG 0 k).

(** The row [GetTX] reads for an id: the first one the query returns. *)
Definition stored (txID : N) (rows : list MySQLTxStore.Row)
    : option MySQLTxStore.Row :=
  head (MySQLTxStore.select_by_id txID rows).

(** A row with another value in the status column. *)
Definition with_status (status : TXStatus) (row : MySQLTxStore.Row)
    : MySQLTxStore.Row :=
  MySQLTxStore.mkRow (MySQLTxStore.row_id row) status
    (MySQLTxStore.row_component_try_statuses row)
    (MySQLTxStore.row_created_at row).



(** ** The manager, further vocabulary *)

(** The registry after [register] has been called on each component of
    [cs] in turn, calls that throw included. *)
Definition registry_of (cs : list TccComponent.t) : TxManager.Components :=
  foldl (fun components component =>
           (TxManager.register component components).2) [] cs.

(** The first component of [cs] that carries the id [k]. *)
Definition first_with_id (k : string) (cs : list TccComponent.t)
    : option TccComponent.t :=
  head (filter (fun c => TccComponent.id c = k) cs).

(** A failure the second-phase job of the manager retries: it is a
    [RetryableError] already, or [isRetryableError] accepts it. *)
Definition retried (phase : Phase) (e : Thrown) : bool :=
  instanceof_RetryableError e || isRetryableError (wrapError e (show_phase phase)).

(** ** Starting a transaction on the store of the test suite, vocabulary *)







(** ** The two stores side by side, vocabulary *)




(** ** The network component, vocabulary *)

(** A reply to a confirm request after which the job of the manager
    calls [confirm] again: a response that is not a 200 success, an
    axios error the component takes for a network failure, or any
    other error the job itself retries. *)
Definition retried_reply (reply : NetworkTccComponent.Reply) : bool :=
  match reply with
  | NetworkTccComponent.Response _ status success _ =>
      bool_decide (status <> 200) || negb success
  | NetworkTccComponent.AxiosError _ code status error =>
      NetworkTccComponent.network_failure code status
      || retried phase_confirm (ThrownError error)
  | NetworkTccComponent.OtherError _ error => retried phase_confirm error
  | NetworkTccComponent.NoReply => false
  end.

(** A network component whose cancel requests come back. *)
Definition answered_cancel (c : TccComponent.t) : Prop :=
  exists id tryReply confirmReply cancelReply,
    c = NetworkTccComponent.new id tryReply confirmReply cancelReply /\
    forall attempt, cancelReply attempt <> NetworkTccComponent.NoReply.

(** ** The metrics collector, vocabulary *)

(** A call of one of the recording methods. *)
Inductive Recorded : Type :=
| TransactionStarted
| TransactionSuccess (durationMs : Q)
| TransactionFailure (durationMs : Q)
| TransactionTimeout (durationMs : Q)
| ComponentTry (componentId : string) (success : bool)
| ComponentConfirm (componentId : string) (success : bool)
| ComponentCancel (componentId : string) (success : bool)
| Retry (operation : string)
| HangingTransactionCount (count : N).

Definition record (c : metrics.InMemoryMetricsCollector) (call : Recorded)
    : metrics.InMemoryMetricsCollector :=
  match call with
  | TransactionStarted => metrics.recordTransactionStarted c
  | TransactionSuccess d => metrics.recordTransactionSuccess d c
  | TransactionFailure d => metrics.recordTransactionFailure d c
  | TransactionTimeout d => metrics.recordTransactionTimeout d c
  | ComponentTry id success => metrics.recordComponentTry id success c
  | ComponentConfirm id success => metrics.recordComponentConfirm id success c
  | ComponentCancel id success => metrics.recordComponentCancel id success c
  | Retry operation => metrics.recordRetry operation c
  | HangingTransactionCount count => metrics.recordHangingTransactionCount count c
  end.

(** The collector after a sequence of calls on a fresh one. *)
Definition recorded (calls : list Recorded) : metrics.InMemoryMetricsCollector :=
  foldl record metrics.reset calls.

(** The duration a call reports, if it reports one. *)
Definition duration_of (call : Recorded) : option Q :=
  match call with
  | TransactionSuccess d | TransactionFailure d | TransactionTimeout d => Some d
  | _ => None
  end.

(** The last [n] elements of a list. *)
Definition last_n {A : Type} (n : nat) (l : list A) : list A :=
  drop (length l - n) l.

(* ===================================================================== *)
(** * Properties *)
(* ===================================================================== *)

(** ** The registry *)

Section JsMap_facts.
Context {K V : Type} `{EqDecision K}.
Implicit Types (m : list (K * V)) (k : K) (v : V).

Lemma Map_get_None m k : Map_get m k = None <-> k ∉ Map_keys m.
Proof.
  unfold Map_keys. induction m as [|[k' v'] m IH]; simpl.
  - split; [intros _; apply not_elem_of_nil | done].
  - rewrite not_elem_of_cons. destruct (decide (k' = k)) as [->|Hne].
    + split; [done | intros [? _]; done].
    + rewrite IH. split; [intros ?; split; [congruence | done] | tauto].
Qed.

Lemma Map_has_true m k : Map_has m k = true <-> k ∈ Map_keys m.
Proof.
  unfold Map_has. rewrite bool_decide_eq_true.
  destruct (Map_get m k) eqn:E.
  - split; [intros _ | by eauto].
    destruct (decide (k ∈ Map_keys m)) as [|Hn]; [done |].
    apply Map_get_None in Hn. congruence.
  - apply Map_get_None in E. split; [intros [? ?]; done | done].
Qed.

Lemma Map_set_fresh m k v : k ∉ Map_keys m -> Map_set m k v = m ++ [(k, v)].
Proof.
  unfold Map_keys. induction m as [|[k' v'] m IH]; simpl; [done |].
  rewrite not_elem_of_cons. intros [Hne Hnin].
  destruct (decide (k' = k)); [congruence |]. by rewrite IH.
Qed.
End JsMap_facts.

Example ex_isRetryable_1 :
  isRetryableError (new_DuplicateComponentError "timeout-svc") = true.
Proof. reflexivity. Qed.

Example ex_isRetryable_2 :
  isRetryableError (new_TransactionNotFoundError 42) = false.
Proof. vm_compute. reflexivity. Qed.

(** C6.  [register(component)] throws if and only if the id of the
    component is already a key of the registry; the error is then a
    [DuplicateComponentError] for that id and the registry is left as it
    was.  With a fresh id the call succeeds and the registry is the old
    one followed by the new entry, one entry longer. *)
Theorem register_duplicate
    (component : TccComponent.t) (components : TxManager.Components) :
  let id := TccComponent.id component in
  let r := TxManager.register component components in
  ((exists e, r.1 = Throw e) <-> id ∈ Map_keys components) /\
  (id ∈ Map_keys components ->
     r.1 = Throw (ThrownError (new_DuplicateComponentError id)) /\
     r.2 = components) /\
  (id ∉ Map_keys components ->
     r.1 = Ok () /\
     r.2 = components ++ [(id, component)] /\
     Map_size r.2 = S (Map_size components)).
Proof.
  intros id r. subst r. unfold TxManager.register. fold id.
  destruct (Map_has components id) eqn:E; simpl.
  - apply Map_has_true in E. split_and!.
    + split; [done | intros _; by eexists].
    + done.
    + done.
  - assert (Hn : id ∉ Map_keys components).
    { intros Hin. apply Map_has_true in Hin. congruence. }
    split_and!.
    + split; [intros [e ?]; done | done].
    + done.
    + intros _. rewrite Map_set_fresh by done.
      split_and!; [done | done |]. unfold Map_size. rewrite length_app. simpl. lia.
Qed.

(** Scenario S6: registering a second component under the id ["X"]
    fails and the registry keeps its single entry. *)
Lemma register_duplicate_witness :
  let p := MockTxStore.MockTccComponent "X" false false false 0 in
  let p' := MockTxStore.MockTccComponent "X" true false false 0 in
  "X" ∈ Map_keys [("X", p)] /\
  (TxManager.register p' [("X", p)]).1
    = Throw (ThrownError (new_DuplicateComponentError "X")) /\
  (TxManager.register p' [("X", p)]).2 = [("X", p)].
Proof.
  intros p p'.
  assert (Hin : "X" ∈ Map_keys [("X", p)]) by (simpl; apply list_elem_of_here).
  split; [exact Hin |].
  exact (proj1 (proj2 (register_duplicate p' [("X", p)])) Hin).
Defined.

(** ** The aggregate status *)

Section getStatus_facts.
Variable transaction : Transaction.t.
Implicit Types (cs : list TccComponent.t) (wanted : ComponentTryStatus).





End getStatus_facts.

(** The loops look at nothing but the statuses of the registered ids. *)
Lemma some_tryStatus_ext wanted (cs : list TccComponent.t) (tx tx' : Transaction.t) :
  (forall c, c ∈ cs ->
     tryStatus <$> Transaction.component_try_statuses tx' !! TccComponent.id c
     = tryStatus <$> Transaction.component_try_statuses tx !! TccComponent.id c) ->
  TxManager.some_tryStatus wanted cs tx' = TxManager.some_tryStatus wanted cs tx.
Proof.
  induction cs as [|c cs IH]; intros Hagree; simpl; [done |].
  pose proof (Hagree c (list_elem_of_here _ _)) as Hc.
  rewrite IH by (intros; apply Hagree; by apply list_elem_of_further).
  destruct (Transaction.component_try_statuses tx' !! TccComponent.id c) as [e'|],
           (Transaction.component_try_statuses tx !! TccComponent.id c) as [e|];
    simplify_eq/=; [|done].
  rewrite Hc. done.
Qed.










(** ** Classification of errors *)

Section includes_facts.
Implicit Types (s a z p x : string) (c : ascii).

Lemma avoids_app a z p : avoids (a +:+ z) p = avoids a p && avoids z p.
Proof. induction a as [|c a IH]; simpl; [done |]. by rewrite IH, andb_assoc. Qed.

Lemma avoids_tail z c p : avoids z (String c p) = true -> avoids z p = true.
Proof.
  induction z as [|c' z IH]; simpl; [done |].
  rewrite !andb_true_iff, !negb_true_iff, orb_false_iff. tauto.
Qed.

Lemma prefix_empty s : String.prefix "" s = true.
Proof. by destruct s. Qed.

Lemma prefix_head_avoided c p s : occurs c p = false -> p <> "" ->
  String.prefix p (String c s) = false.
Proof.
  destruct p as [|c0 p]; [done |]. simpl. intros Hocc _.
  apply orb_false_iff in Hocc as [Hc _].
  destruct (ascii_dec c0 c) as [->|]; [|done].
  by rewrite Ascii.eqb_refl in Hc.
Qed.

Lemma prefix_avoids x z p : avoids z p = true ->
  String.prefix p (x +:+ z) = String.prefix p x.
Proof.
  revert p. induction x as [|c x IH]; intros p Hz.
  - change ("" +:+ z) with z.
    destruct p as [|c0 p]; [by rewrite !prefix_empty |].
    destruct z as [|c z]; [done |].
    simpl in Hz. apply andb_true_iff in Hz as [Hc _].
    apply negb_true_iff in Hc. by rewrite prefix_head_avoided.
  - change (String c x +:+ z) with (String c (x +:+ z)).
    destruct p as [|c0 p]; [done |]. simpl.
    destruct (ascii_dec c0 c); [|done]. eapply IH, avoids_tail, Hz.
Qed.

Lemma includes_empty s : includes s "" = true.
Proof. by destruct s. Qed.

Lemma includes_avoids z p : avoids z p = true ->
  includes z p = String.prefix p "".
Proof.
  induction z as [|c z IH]; intros Hz; cbn [includes];
    [by rewrite orb_false_r |].
  simpl in Hz. apply andb_true_iff in Hz as [Hc Hz]. apply negb_true_iff in Hc.
  rewrite IH by done. destruct p as [|c0 p]; [done |].
  by rewrite prefix_head_avoided.
Qed.

Lemma includes_app_r s z p : avoids z p = true ->
  includes (s +:+ z) p = includes s p.
Proof.
  intros Hz. induction s as [|c s IH].
  - change ("" +:+ z) with z. cbn [includes].
    rewrite includes_avoids by done. by rewrite orb_false_r.
  - change (String c s +:+ z) with (String c (s +:+ z)).
    cbn [includes]. rewrite IH.
    change (String c (s +:+ z)) with (String c s +:+ z).
    by rewrite prefix_avoids.
Qed.

Lemma includes_app_l a s p : avoids a p = true ->
  includes (a +:+ s) p = includes s p.
Proof.
  induction a as [|c a IH]; intros Ha; [done |].
  simpl in Ha. apply andb_true_iff in Ha as [Hc Ha]. apply negb_true_iff in Hc.
  change (String c a +:+ s) with (String c (a +:+ s)). cbn [includes].
  rewrite IH by done. destruct p as [|c0 p]; [by rewrite includes_empty |].
  by rewrite prefix_head_avoided.
Qed.

Lemma has_marker_between a s z :
  avoids a "CDEFIMNORSTUeimotu" = true -> avoids z "CDEFIMNORSTUeimotu" = true ->
  has_marker (a +:+ s +:+ z) = has_marker s.
Proof.
  intros Ha Hz. unfold has_marker.
  assert (Hmono : forall x,
            avoids x "CDEFIMNORSTUeimotu" = true ->
            avoids x "ECONNREFUSED" = true /\ avoids x "ETIMEDOUT" = true /\
            avoids x "ENOTFOUND" = true /\ avoids x "timeout" = true).
  { induction x as [|c x IH]; [done |]. simpl avoids.
    rewrite !andb_true_iff, !negb_true_iff. intros [Hc Hx].
    destruct (IH Hx) as (? & ? & ? & ?).
    assert (occurs c "ECONNREFUSED" = false /\ occurs c "ETIMEDOUT" = false /\
            occurs c "ENOTFOUND" = false /\ occurs c "timeout" = false)
      as (? & ? & ? & ?).
    { simpl in Hc |- *. rewrite !orb_false_iff in Hc. destruct_and!.
      repeat match goal with
             | H : Ascii.eqb c _ = false |- _ => rewrite ?H; clear H
             end.
      done. }
    tauto. }
  destruct (Hmono a Ha) as (? & ? & ? & ?), (Hmono z Hz) as (? & ? & ? & ?).
  rewrite !(includes_app_l a) by done. by rewrite !(includes_app_r s z).
Qed.
End includes_facts.

(** The decimal rendering of a number consists of digits. *)
Lemma show_N_digits (n : N) : avoids (show_N n) "CDEFIMNORSTUeimotu" = true.
Proof.
  unfold show_N, NilZero.string_of_uint.
  assert (H : forall d, avoids (NilEmpty.string_of_uint d) "CDEFIMNORSTUeimotu" = true).
  { induction d as [|d IH|d IH|d IH|d IH|d IH|d IH|d IH|d IH|d IH|d IH];
      simpl NilEmpty.string_of_uint; simpl avoids;
      [reflexivity | exact IH ..]. }
  specialize (H (N.to_uint n)).
  destruct (N.to_uint n); [reflexivity | exact H ..].
Qed.

(** C9, as amended.  [isRetryableError] looks at the kind and at the
    message text: an error is retryable exactly when it is a
    [StorageError] or its message contains one of [ECONNREFUSED],
    [ETIMEDOUT], [ENOTFOUND], [timeout].  Hence every [StorageError] is
    retryable and every [TransactionNotFoundError] is terminal, while a
    [DuplicateComponentError] is retryable exactly when the component id
    contains one of the four markers.  The test [withRetry] itself makes
    ([instanceof RetryableError]) depends on the kind only. *)
Theorem isRetryableError_classification :
  (forall e, isRetryableError e
             = has_marker (message e) || bool_decide (class_of e = StorageError)) /\
  (forall e, class_of e = StorageError -> isRetryableError e = true) /\
  (forall operation, isRetryableError (new_StorageError operation) = true) /\
  (forall txId, isRetryableError (new_TransactionNotFoundError txId) = false) /\
  (forall componentId,
     isRetryableError (new_DuplicateComponentError componentId)
     = has_marker componentId) /\
  (forall e1 e2, class_of e1 = class_of e2 ->
     instanceof_RetryableError (ThrownError e1)
     = instanceof_RetryableError (ThrownError e2)).
Proof.
  assert (Hdef : forall e, isRetryableError e
            = has_marker (message e) || bool_decide (class_of e = StorageError)).
  { intros e. reflexivity. }
  split_and!; [done | | | | |].
  - intros e He. rewrite Hdef, bool_decide_eq_true_2 by done. apply orb_true_r.
  - intros operation. rewrite Hdef. apply orb_true_r.
  - intros txId. rewrite Hdef. unfold new_TransactionNotFoundError.
    cbn [message class_of]. rewrite orb_false_r.
    rewrite has_marker_between; [| done | done].
    unfold has_marker. pose proof (show_N_digits txId) as Hd.
    assert (Hmono : forall p, p <> "" ->
              (forall c, occurs c p = true -> occurs c "CDEFIMNORSTUeimotu" = true) ->
              includes (show_N txId) p = false).
    { intros p Hp Hsub. rewrite includes_avoids; [by destruct p |].
      revert Hd. generalize (show_N txId). induction s as [|c s IH]; [done |].
      cbn [avoids]. rewrite !andb_true_iff, !negb_true_iff. intros [Hc Hs].
      split; [|by apply IH].
      destruct (occurs c p) eqn:E; [|done]. apply Hsub in E. congruence. }
    rewrite !Hmono; [done | done | | done | | done | | done |];
      intros c Hc; simpl in Hc; rewrite !orb_true_iff in Hc;
      repeat match goal with H : _ \/ _ |- _ => destruct H end; try done;
      match goal with
      | H : Ascii.eqb _ _ = true |- _ =>
          apply Ascii.eqb_eq in H; subst; reflexivity
      end.
  - intros componentId. rewrite Hdef. unfold new_DuplicateComponentError.
    cbn [message class_of]. rewrite orb_false_r.
    by rewrite has_marker_between.
  - intros e1 e2 Hclass. simpl. by rewrite Hclass.
Qed.

(** A storage failure is retryable whatever operation it names. *)
Lemma isRetryableError_classification_witness :
  class_of (new_StorageError "TXSubmit") = StorageError /\
  isRetryableError (new_StorageError "TXSubmit") = true.
Proof.
  split; [reflexivity |].
  exact (proj1 (proj2 isRetryableError_classification)
           (new_StorageError "TXSubmit") eq_refl).
Defined.

(** C9 as stated fails: two errors of the same kind are classified
    differently because of their message text, and a duplicate
    registration of a component named after a timeout is classified as
    retryable. *)
Lemma isRetryableError_reads_message :
  class_of (new_DuplicateComponentError "timeout-service")
    = class_of (new_DuplicateComponentError "stock") /\
  isRetryableError (new_DuplicateComponentError "timeout-service") = true /\
  isRetryableError (new_DuplicateComponentError "stock") = false.
Proof. split_and!; vm_compute; reflexivity. Qed.

(** ** The retry helper *)

Section withRetry_facts.
Context {St T : Type}.
Variable operation : nat -> St -> Settled T * St.
Variable random : nat -> Q.
Variable finalConfig : RetryConfig.
Variable s : St.

Let Run := (Run (St := St) (T := T)).
Let loop := loop operation random finalConfig.
Let sleeps (k m : nat) : list RetryEvent :=
  flat_map (fun j => [Attempt j; Sleep (finalDelay random finalConfig j)])
           (seq k m).

Lemma after_nil (r : Run) : after [] r = r.
Proof. by destruct r. Qed.

Lemma after_after (l1 l2 : list RetryEvent) (r : Run) :
  after l1 (after l2 r) = after (l1 ++ l2) r.
Proof. unfold after. simpl. by rewrite app_assoc. Qed.

(** As long as attempts fail with a retryable error and retries are
    left, the loop sleeps and goes on with the next attempt. *)
Lemma loop_retries (m k remaining : nat) :
  (forall j, (k <= j < k + m)%nat ->
     retryable_failure (outcome_of operation s j)) ->
  (m <= remaining)%nat ->
  loop remaining k (now_before operation random finalConfig s k)
       (state_before operation s k)
  = after (sleeps k m)
      (loop (remaining - m) (k + m)
            (now_before operation random finalConfig s (k + m))
            (state_before operation s (k + m))).
Proof.
  revert k remaining. induction m as [|m IH]; intros k remaining Hfail Hle.
  - rewrite Nat.add_0_r, Nat.sub_0_r. by rewrite after_nil.
  - destruct remaining as [|remaining]; [lia |].
    destruct (Hfail k) as (d & e & Hk & He); [lia |].
    unfold loop at 1. simpl retry.loop.
    unfold outcome_of in Hk.
    destruct (operation k (state_before operation s k)) as [o s'] eqn:Hop.
    simpl in Hk. subst o. rewrite He. simpl negb. cbv iota.
    assert (Hs : state_before operation s (S k) = s').
    { simpl. by rewrite Hop. }
    assert (Hn : now_before operation random finalConfig s (S k)
                 = (now_before operation random finalConfig s k + d
                    + finalDelay random finalConfig k)%Q).
    { simpl. unfold outcome_of. by rewrite Hop. }
    rewrite <- Hs, <- Hn.
    fold loop. rewrite (IH (S k) remaining); [| intros; apply Hfail; lia | lia].
    rewrite after_after. replace (S k + m)%nat with (k + S m)%nat by lia.
    done.
Qed.

(** The last attempt of a run. *)
Lemma loop_last (n remaining : nat) (now : Q) :
  let o := outcome_of operation s n in
  let done_ (settled : Settled T) :=
    mkRun settled (state_after operation s n) [Attempt n] in
  loop remaining n now (state_before operation s n)
  = match o with
    | Fulfilled d v => done_ (Fulfilled (now + d) v)
    | Pending => done_ Pending
    | Rejected d e =>
        if negb (instanceof_RetryableError e) then done_ (Rejected (now + d) e)
        else match remaining with
             | O => done_ (Rejected (now + d) e)
             | S remaining' =>
                 after [Attempt n; Sleep (finalDelay random finalConfig n)]
                   (loop remaining' (S n)
                      (now + d + finalDelay random finalConfig n)
                      (state_after operation s n))
             end
    end.
Proof.
  unfold loop, outcome_of, state_after. destruct remaining; simpl;
    destruct (operation n (state_before operation s n)) as [[] ?]; done.
Qed.

(** One turn of the loop, from any state. *)
Lemma loop_unfold (remaining attempt : nat) (now : Q) (st : St) :
  loop remaining attempt now st
  = match operation attempt st with
    | (Fulfilled d v, st') => mkRun (Fulfilled (now + d) v) st' [Attempt attempt]
    | (Pending, st') => mkRun Pending st' [Attempt attempt]
    | (Rejected d e, st') =>
        if negb (instanceof_RetryableError e)
        then mkRun (Rejected (now + d) e) st' [Attempt attempt]
        else match remaining with
             | O => mkRun (Rejected (now + d) e) st' [Attempt attempt]
             | S remaining' =>
                 after [Attempt attempt; Sleep (finalDelay random finalConfig attempt)]
                   (loop remaining' (S attempt)
                      (now + d + finalDelay random finalConfig attempt) st')
             end
    end.
Proof. by destruct remaining. Qed.

(** A run that returns a value got it from one of its attempts. *)
Lemma loop_fulfilled (remaining attempt : nat) (now : Q) (st : St) t v :
  settled (loop remaining attempt now st) = Fulfilled t v ->
  exists k d st0 st',
    (attempt <= k <= attempt + remaining)%nat /\
    operation k st0 = (Fulfilled d v, st').
Proof.
  revert attempt now st.
  induction remaining as [|remaining IH]; intros attempt now st;
    rewrite loop_unfold;
    destruct (operation attempt st) as [[d v'|d e|] st'] eqn:Hop;
    try destruct (negb (instanceof_RetryableError e)); simpl; try done;
    try (intros [= _ ->]; exists attempt, d, st, st'; split; [lia | done]).
  intros (k & d' & st0 & st1 & Hk & Hop')%IH.
  exists k, d', st0, st1. split; [lia | done].
Qed.
End withRetry_facts.

(** The jitter lies in [[0, jitterMs)]. *)
Lemma jitter_range (random : nat -> Q) (finalConfig : RetryConfig) (k : nat) (j : Q) :
  jitterMs finalConfig = Some j ->
  (0 < j)%Q -> (0 <= random k)%Q -> (random k < 1)%Q ->
  (0 <= jitter random finalConfig k)%Q /\ (jitter random finalConfig k < j)%Q.
Proof.
  intros Hj Hpos Hlo Hhi. unfold jitter. rewrite Hj.
  destruct (Qeq_bool j 0) eqn:E.
  - apply Qeq_bool_eq in E. rewrite E in Hpos. by apply Qlt_irrefl in Hpos.
  - split.
    + apply Qmult_le_0_compat; [done | by apply Qlt_le_weak].
    + rewrite <- (Qmult_1_l j) at 2. by apply Qmult_lt_compat_r.
Qed.

(** C4.  [withRetry] makes attempts number 0, 1, ... and at most
    [maxRetries + 1] of them.  Let attempt [n] be reached, every earlier
    attempt having failed with a retryable error; the run then slept
    [min(baseDelayMs * backoffMultiplier^k, maxDelayMs)] plus the jitter
    after each attempt [k < n] and made the next attempt.  If attempt [n]
    succeeds its result is returned at once; if it fails with an error
    that is not retryable that error is thrown at once, with no further
    attempt; if it fails with a retryable error and [n = maxRetries],
    that last error is thrown.  The jitter is [Math.random() * jitterMs],
    a value in [[0, jitterMs)]. *)
Theorem withRetry_attempts {St T : Type}
    (operation : nat -> St -> Settled T * St) (random : nat -> Q)
    (config : PartialRetryConfig) (s : St) (n : nat) :
  let finalConfig := spread config in
  let run := withRetry operation random config s in
  let now := now_before operation random finalConfig s n in
  let ends_with (settled : Settled T) :=
    run = mkRun settled (state_after operation s n)
                (trace_upto random finalConfig n) in
  0 <= maxRetries finalConfig ->
  Z.of_nat n <= maxRetries finalConfig ->
  (forall k, (k < n)%nat -> retryable_failure (outcome_of operation s k)) ->
  (forall d v, outcome_of operation s n = Fulfilled d v ->
     ends_with (Fulfilled (now + d) v)) /\
  (forall d e, outcome_of operation s n = Rejected d e ->
     instanceof_RetryableError e = false ->
     ends_with (Rejected (now + d) e)) /\
  (forall d e, outcome_of operation s n = Rejected d e ->
     instanceof_RetryableError e = true ->
     Z.of_nat n = maxRetries finalConfig ->
     ends_with (Rejected (now + d) e)) /\
  (forall k,
     finalDelay random finalConfig k
     = (Qmin (baseDelayMs finalConfig
                * Qpower (backoffMultiplier finalConfig) (Z.of_nat k))
             (maxDelayMs finalConfig)
        + jitter random finalConfig k)%Q) /\
  (forall k j, jitterMs finalConfig = Some j ->
     (0 < j)%Q -> (0 <= random k)%Q -> (random k < 1)%Q ->
     (0 <= jitter random finalConfig k)%Q /\
     (jitter random finalConfig k < j)%Q).
Proof.
  intros finalConfig run now ends_with Hmax Hn Hfail.
  assert (Hrun : run
            = after (flat_map
                       (fun j => [Attempt j; Sleep (finalDelay random finalConfig j)])
                       (seq 0 n))
                (loop operation random finalConfig
                      (Z.to_nat (maxRetries finalConfig) - n) n now
                      (state_before operation s n))).
  { subst run. unfold withRetry, withRetry_from. fold finalConfig.
    rewrite decide_False by lia.
    apply (loop_retries operation random finalConfig s n 0);
      [intros; apply Hfail; lia | lia]. }
  subst ends_with. cbv beta.
  split_and!.
  - intros d v Ho. rewrite Hrun, loop_last, Ho. done.
  - intros d e Ho He. rewrite Hrun, loop_last, Ho, He. done.
  - intros d e Ho He Hlast. rewrite Hrun, loop_last, Ho, He.
    replace (Z.to_nat (maxRetries finalConfig) - n)%nat with 0%nat by lia. done.
  - done.
  - intros k j. apply jitter_range.
Qed.

(** Scenario S4: the operation fails twice with a retryable error and
    then succeeds; the third attempt returns its result after two sleeps
    of 1000 and 2000 ms plus jitter. *)
Lemma withRetry_attempts_witness :
  let operation (k : nat) (_ : unit) : Settled string * unit :=
    (if (k <? 2)%nat
     then Rejected 5 (ThrownError (new_RetryableError "busy"))
     else Fulfilled 5 "done", ()) in
  let random (_ : nat) : Q := 1 # 2 in
  let run := withRetry operation random no_overrides () in
  (0 <= maxRetries (spread no_overrides) /\
   Z.of_nat 2 <= maxRetries (spread no_overrides) /\
   (forall k, (k < 2)%nat -> retryable_failure (outcome_of operation () k))) /\
  settled run
    = Fulfilled
        (now_before operation random (spread no_overrides) () 2 + 5) "done" /\
  trace run
    = [Attempt 0; Sleep (Qmin (1000 * 2 ^ 0) 30000 + (1 # 2) * 100);
       Attempt 1; Sleep (Qmin (1000 * 2 ^ 1) 30000 + (1 # 2) * 100);
       Attempt 2].
Proof.
  intros operation random run.
  assert (H0 : 0 <= maxRetries (spread no_overrides)) by (vm_compute; discriminate).
  assert (H1 : Z.of_nat 2 <= maxRetries (spread no_overrides))
    by (vm_compute; discriminate).
  assert (H2 : forall k, (k < 2)%nat ->
                 retryable_failure (outcome_of operation () k)).
  { intros k Hk. exists 5%Q, (ThrownError (new_RetryableError "busy")).
    destruct k as [|[|k]]; [split; reflexivity | split; reflexivity | lia]. }
  split; [exact (conj H0 (conj H1 H2)) |].
  pose proof (proj1 (withRetry_attempts operation random no_overrides () 2
                       H0 H1 H2) 5%Q "done" eq_refl) as Hrun.
  fold run in Hrun. rewrite Hrun. split; reflexivity.
Defined.


(** ** The MySQL store *)

Section MySQLTxStore_facts.
Import MySQLTxStore.
Variable random : nat -> Q.
Implicit Types (rows : list Row) (pool : Pool).

Lemma affectedRows_update_status status txID rows :
  affectedRows txID (update_status status txID rows) = affectedRows txID rows.
Proof.
  unfold affectedRows, update_status.
  induction rows as [|row rows IH]; [done |].
  rewrite fmap_cons, !filter_cons. simpl.
  destruct (decide (row_id row = txID)) as [Heq|Hne]; simpl.
  - rewrite decide_True by done. simpl. by rewrite IH.
  - rewrite decide_False by done. done.
Qed.

Lemma update_status_submitted status txID rows :
  (forall row, row ∈ rows -> row_id row = txID -> row_status row = status) ->
  update_status status txID rows = rows.
Proof.
  unfold update_status. induction rows as [|row rows IH]; intros Hall; [done |].
  rewrite fmap_cons, IH by (intros; apply Hall; [by apply list_elem_of_further | done]).
  f_equal. destruct (decide (row_id row = txID)) as [Heq|Hne]; [|done].
  rewrite <- (Hall row (list_elem_of_here _ _) Heq). by destruct row.
Qed.

Lemma update_status_writes status txID rows row :
  row ∈ update_status status txID rows -> row_id row = txID ->
  row_status row = status.
Proof.
  unfold update_status. intros (row0 & -> & Hin)%list_elem_of_fmap.
  destruct (decide (row_id row0 = txID)); [done |]. simpl. done.
Qed.

Lemma with_table_same pool : with_table pool (tx_record pool) = pool.
Proof. by destruct pool. Qed.

(** The operation [TXSubmit] hands to [withRetry]. *)
Let submit (txID : N) (success : bool) : nat -> Pool -> Settled unit * Pool :=
  fun _ pool =>
    let '(fault, pool) := next_fault pool in
    if fault then (Rejected 0 (storage_failure "TXSubmit"), pool)
    else
      let status := if success then TXSuccessful else TXFailure in
      let rows := tx_record pool in
      let pool := with_table pool (update_status status txID rows) in
      if decide (affectedRows txID rows = 0%nat)
      then (Rejected 0 (ThrownError (new_TransactionNotFoundError txID)), pool)
      else (Fulfilled 0 (), pool).

Lemma TXSubmit_unfold txID success pool :
  TXSubmit random txID success pool
  = loop (submit txID success) random DEFAULT_RETRY_CONFIG 3 0 0 pool.
Proof. reflexivity. Qed.

(** One call of the operation: rejected by the driver, or run. *)
Lemma submit_step txID success k rows next fs clock :
  submit txID success k (mkPool rows next fs clock)
  = match fs with
    | true :: fs' =>
        (Rejected 0 (storage_failure "TXSubmit"), mkPool rows next fs' clock)
    | _ =>
        (if decide (affectedRows txID rows = 0%nat)
         then Rejected 0 (ThrownError (new_TransactionNotFoundError txID))
         else Fulfilled 0 (),
         mkPool (update_status (submitted_status success) txID rows) next
                (tail fs) clock)
    end.
Proof.
  unfold submit, next_fault. simpl.
  destruct fs as [|[] fs]; simpl; [| done |];
    by destruct (decide (affectedRows txID rows = 0%nat)).
Qed.

Ltac submit_turn txID rows :=
  rewrite loop_unfold, submit_step;
  match goal with
  | |- context [match ?fs with [] => _ | _ :: _ => _ end] =>
      destruct fs as [|[] ?]
  end;
  try destruct (decide (affectedRows txID rows = 0%nat));
  cbn [instanceof_RetryableError storage_failure new_RetryableError class_of];
  rewrite ?(bool_decide_eq_true_2 (RetryableError = RetryableError)) by done;
  cbn [negb settled state tail faults tx_record after].

(** A call on a transaction that is already submitted with the same
    value leaves the table as it is, whatever the driver does. *)
Lemma submit_loop_table txID success remaining attempt t pool :
  submitted txID (submitted_status success) (tx_record pool) ->
  tx_record
    (state (loop (submit txID success) random DEFAULT_RETRY_CONFIG
                 remaining attempt t pool))
  = tx_record pool.
Proof.
  intros [Hfound Hstatus].
  revert attempt t pool Hfound Hstatus.
  induction remaining as [|remaining IH];
    intros attempt t [rows next fs clock] Hfound Hstatus;
    cbn [tx_record] in *; submit_turn txID rows; try done;
    try (by apply update_status_submitted).
  all: by rewrite IH.
Qed.

(** It succeeds unless the driver rejects more statements in a row than
    there are attempts. *)
Lemma submit_loop_succeeds txID success remaining attempt t pool :
  affectedRows txID (tx_record pool) <> 0%nat ->
  (leading_faults (faults pool) <= remaining)%nat ->
  exists t', settled (loop (submit txID success) random DEFAULT_RETRY_CONFIG
                           remaining attempt t pool)
             = Fulfilled t' ().
Proof.
  revert attempt t pool.
  induction remaining as [|remaining IH];
    intros attempt t [rows next fs clock] Hfound Hfaults;
    cbn [tx_record faults] in *;
    submit_turn txID rows; cbn [leading_faults] in Hfaults;
    try done; try lia; try (by eexists).
  all: apply IH; [done | simpl; lia].
Qed.

(** A call that succeeded has written the status. *)
Lemma submit_loop_writes txID success remaining attempt t pool t' :
  settled (loop (submit txID success) random DEFAULT_RETRY_CONFIG
                remaining attempt t pool) = Fulfilled t' () ->
  submitted txID (submitted_status success)
    (tx_record (state (loop (submit txID success) random DEFAULT_RETRY_CONFIG
                            remaining attempt t pool))).
Proof.
  revert attempt t pool.
  assert (Hrun : forall rows,
            affectedRows txID rows <> 0%nat ->
            submitted txID (submitted_status success)
              (update_status (submitted_status success) txID rows)).
  { intros rows Hfound. split; [by rewrite affectedRows_update_status |].
    apply update_status_writes. }
  induction remaining as [|remaining IH];
    intros attempt t [rows next fs clock];
    submit_turn txID rows; try done; try (intros _; by apply Hrun).
  all: apply IH.
Qed.

Lemma TXSubmit_no_fault txID success rows next clock :
  submitted txID (submitted_status success) rows ->
  TXSubmit random txID success (mkPool rows next [] clock)
  = mkRun (Fulfilled (0 + 0) ()) (mkPool rows next [] clock) [Attempt 0].
Proof.
  intros [Hfound Hstatus]. rewrite TXSubmit_unfold, loop_unfold, submit_step.
  rewrite decide_False by done. simpl tail.
  by rewrite update_status_submitted.
Qed.
End MySQLTxStore_facts.

(** C5.  Once [TXSubmit(txID, success)] has succeeded the row carries
    the submitted status.  Calling [TXSubmit(txID, success)] on a
    transaction that already carries that status never changes the
    table; the call succeeds unless the driver rejects four statements
    in a row, and when the driver rejects none it succeeds at the first
    attempt and leaves the whole store as it was. *)
Theorem TXSubmit_idempotent (random : nat -> Q) (txID : N) (success : bool) :
  (forall pool t,
     settled (MySQLTxStore.TXSubmit random txID success pool) = Fulfilled t () ->
     submitted txID (submitted_status success)
       (MySQLTxStore.tx_record
          (state (MySQLTxStore.TXSubmit random txID success pool)))) /\
  (forall pool,
     submitted txID (submitted_status success) (MySQLTxStore.tx_record pool) ->
     let second := MySQLTxStore.TXSubmit random txID success pool in
     MySQLTxStore.tx_record (state second) = MySQLTxStore.tx_record pool /\
     ((leading_faults (MySQLTxStore.faults pool) <= 3)%nat ->
        exists t', settled second = Fulfilled t' ()) /\
     (MySQLTxStore.faults pool = [] ->
        second = mkRun (Fulfilled (0 + 0) ()) pool [Attempt 0])).
Proof.
  split.
  - intros pool t. rewrite TXSubmit_unfold. apply submit_loop_writes.
  - intros pool Hsub second. subst second. split_and!.
    + rewrite TXSubmit_unfold. by apply submit_loop_table.
    + intros Hfaults. rewrite TXSubmit_unfold.
      apply submit_loop_succeeds; [apply Hsub | done].
    + destruct pool as [rows next fs clock]. simpl. intros ->.
      by apply TXSubmit_no_fault.
Qed.

(** A transaction is submitted as successful, then submitted again: the
    second call returns at once and the store is unchanged. *)
Lemma TXSubmit_idempotent_witness :
  let random (_ : nat) : Q := 0%Q in
  let pool :=
    MySQLTxStore.mkPool [MySQLTxStore.mkRow 1 TXHanging ∅ 0] 2 [] 0 in
  let first := MySQLTxStore.TXSubmit random 1 true pool in
  let second := MySQLTxStore.TXSubmit random 1 true (state first) in
  settled first = Fulfilled (0 + 0) () /\
  MySQLTxStore.faults (state first) = [] /\
  second = mkRun (Fulfilled (0 + 0) ()) (state first) [Attempt 0] /\
  MySQLTxStore.row_status <$> MySQLTxStore.tx_record (state second)
    = [TXSuccessful].
Proof.
  intros random pool first second.
  assert (Hfirst : settled first = Fulfilled (0 + 0) ()) by reflexivity.
  assert (Hfaults : MySQLTxStore.faults (state first) = []) by reflexivity.
  destruct (TXSubmit_idempotent random 1 true) as [Hwrites Hagain].
  pose proof (Hwrites pool _ Hfirst) as Hsub.
  destruct (Hagain (state first) Hsub) as (_ & _ & Hsecond).
  specialize (Hsecond Hfaults). fold second in Hsecond.
  split_and!; [exact Hfirst | exact Hfaults | exact Hsecond |].
  rewrite Hsecond. reflexivity.
Defined.

#[global] Instance created_at_ASC_transitive : Transitive MySQLTxStore.created_at_ASC.
Proof. intros r1 r2 r3. unfold MySQLTxStore.created_at_ASC. lia. Qed.

#[global] Instance created_at_ASC_total : Total MySQLTxStore.created_at_ASC.
Proof. intros r1 r2. unfold MySQLTxStore.created_at_ASC. lia. Qed.

Section select_hanging_facts.
Import MySQLTxStore.
Implicit Types (rows : list Row) (row : Row).




Variable random : nat -> Q.







End select_hanging_facts.



(** ** Promise.all *)

Section Promise_all_facts.
Context {T : Type}.
Implicit Types (ps : list (Settled T)) (p : Settled T).

Lemma first_rejection_None ps :
  first_rejection ps = None <-> forall p, p ∈ ps -> is_rejected p = false.
Proof.
  induction ps as [|p ps IH]; simpl.
  - split; [intros _ p Hin; by apply elem_of_nil in Hin | done].
  - destruct p as [t v|t e|]; simpl.
    + rewrite IH. split.
      * intros Hps p [->|Hin]%elem_of_cons; [done | by apply Hps].
      * intros Hps p Hin. apply Hps. by apply list_elem_of_further.
    + split.
      * destruct (first_rejection ps) as [[t' e']|]; [|done].
        by destruct (Qle_bool t t').
      * intros Hps. by specialize (Hps _ (list_elem_of_here _ _)).
    + rewrite IH. split.
      * intros Hps p [->|Hin]%elem_of_cons; [done | by apply Hps].
      * intros Hps p Hin. apply Hps. by apply list_elem_of_further.
Qed.

Lemma last_fulfilment_upper ps t v :
  Fulfilled t v ∈ ps -> (t <= last_fulfilment ps)%Q.
Proof.
  induction ps as [|p ps IH]; intros Hin; [by apply elem_of_nil in Hin |].
  unfold last_fulfilment. simpl. fold (last_fulfilment ps).
  apply elem_of_cons in Hin as [<-|Hin].
  - apply Q.le_max_l.
  - specialize (IH Hin). destruct p as [t0 v0| |]; [|done..].
    eapply Qle_trans; [exact IH | apply Q.le_max_r].
Qed.

(** [Promise.all] fulfils only when every element has fulfilled, and not
    before the last of them. *)
Lemma Promise_all_fulfilled ps t vs :
  Promise_all ps = Fulfilled t vs ->
  forall p, p ∈ ps -> exists t' v, p = Fulfilled t' v /\ (t' <= t)%Q.
Proof.
  unfold Promise_all. destruct (first_rejection ps) as [[t0 e0]|]; [done |].
  destruct (forallb is_fulfilled ps) eqn:Hall; [|done].
  intros [= <- _] p Hin.
  assert (Hp : is_fulfilled p = true).
  { rewrite forallb_forall in Hall. by apply Hall, list_elem_of_In. }
  destruct p as [t' v| |]; [|done..].
  exists t', v. split; [done |]. by eapply last_fulfilment_upper.
Qed.

(** [Promise.all] rejects as soon as one element rejects. *)
Lemma Promise_all_rejected ps p :
  p ∈ ps -> is_rejected p = true -> exists t e, Promise_all ps = Rejected t e.
Proof.
  intros Hin Hp. unfold Promise_all.
  destruct (first_rejection ps) as [[t e]|] eqn:Hfirst; [by eauto |].
  rewrite first_rejection_None in Hfirst. rewrite (Hfirst p Hin) in Hp. done.
Qed.
End Promise_all_facts.

(** ** Advancing a transaction *)

Section advance_facts.
Context {St : Type}.
Variable txStore : TxStore.t St.
Variable random : string -> nat -> Q.
Variable components : TxManager.Components.
Implicit Types (s : St) (transaction : Transaction.t) (phase : Phase).

Lemma job_unfold phase component :
  TxManager.job random phase component
  = loop (TxManager.guarded_call phase component)
         (random (TccComponent.id component)) DEFAULT_RETRY_CONFIG 3 0 0 ().
Proof. reflexivity. Qed.

(** A job that resolves has seen its component succeed. *)
Lemma job_fulfilled phase component t :
  settled (TxManager.job random phase component) = Fulfilled t () ->
  exists attempt d,
    (attempt <= 3)%nat /\
    TxManager.second_phase_call phase component attempt = Fulfilled d ().
Proof.
  rewrite job_unfold. intros (k & d & [] & [] & Hk & Hcall)%loop_fulfilled.
  exists k, d. split; [lia |].
  unfold TxManager.guarded_call in Hcall.
  destruct (TxManager.second_phase_call phase component k) as [d' []|d' e|];
    [by simplify_eq | | done].
  by destruct (isRetryableError _).
Qed.

Lemma job_in_fan_out phase component :
  component ∈ TxManager.getComponents components ->
  settled (TxManager.job random phase component)
    ∈ (fun j => settled j.2) <$> fan_out_jobs random components phase.
Proof.
  intros Hin. unfold fan_out_jobs. rewrite <- list_fmap_compose.
  by apply (list_elem_of_fmap_2
              (fun c => settled (TxManager.job random phase c))).
Qed.

Lemma fan_out_submitted phase success txStatus transaction s txID b t :
  TxManager.submitted
    (TxManager.fan_out txStore random phase success txStatus components
       transaction s)
    = Some (txID, b, t) ->
  txID = Transaction.id transaction /\ b = success /\
  forall component, component ∈ TxManager.getComponents components ->
    exists attempt d t',
      (attempt <= 3)%nat /\
      TxManager.second_phase_call phase component attempt = Fulfilled d () /\
      settled (TxManager.job random phase component) = Fulfilled t' () /\
      (t' <= t)%Q.
Proof.
  unfold TxManager.fan_out. fold (fan_out_jobs random components phase).
  destruct (Promise_all ((fun j => settled j.2) <$> fan_out_jobs random components phase))
    as [t0 vs|t0 e|] eqn:Hall; [|done..].
  intros Hsub.
  assert (Heq : txID = Transaction.id transaction /\ b = success /\ t = t0).
  { destruct (TxStore.TXSubmit txStore _ _ _) as [[] ?]; simpl in Hsub;
      by simplify_eq. }
  destruct Heq as (-> & -> & ->). split_and!; [done | done |].
  intros component Hin.
  destruct (Promise_all_fulfilled _ _ _ Hall _ (job_in_fan_out phase _ Hin))
    as (t' & [] & Hjob & Hle).
  destruct (job_fulfilled _ _ _ Hjob) as (attempt & d & Hk & Hcall).
  by exists attempt, d, t'.
Qed.

Lemma fan_out_rejected phase success txStatus transaction s id j t e :
  (id, j) ∈ fan_out_jobs random components phase -> settled j = Rejected t e ->
  let run := TxManager.fan_out txStore random phase success txStatus components
               transaction s in
  TxManager.submitted run = None /\ TxManager.store run = s /\
  exists t' e', TxManager.outcome run = Rejected t' e'.
Proof.
  intros Hin Hj run. subst run. unfold TxManager.fan_out.
  fold (fan_out_jobs random components phase).
  destruct (Promise_all_rejected ((fun j => settled j.2) <$> fan_out_jobs random components phase)
              (settled j)) as (t' & e' & ->).
  - by apply (list_elem_of_fmap_2 (fun j => settled j.2) _ (id, j)).
  - by rewrite Hj.
  - simpl. by eauto.
Qed.

Lemma fan_out_shape phase success txStatus transaction s :
  let run := TxManager.fan_out txStore random phase success txStatus components
               transaction s in
  TxManager.evaluated run = Some txStatus /\
  TxManager.jobs run = fan_out_jobs random components phase.
Proof.
  intros run. subst run. unfold TxManager.fan_out. fold (fan_out_jobs random components phase).
  destruct (Promise_all _); [|done..].
  by destruct (TxStore.TXSubmit txStore _ _ _) as [[] ?].
Qed.
End advance_facts.

(** C1.  In one invocation of [advanceTransactionProgress]:
    [TXSubmit(tx.id, true)] (resp. [TXSubmit(tx.id, false)]) is called
    only when the aggregate status is [Successful] (resp. [Failure])
    and, for every registered component, a [confirm] (resp. [cancel])
    call has returned with success, no later than the instant of the
    [TXSubmit] call.  If the job of some component rejects, [TXSubmit]
    is not called, the invocation rejects and the store is left exactly
    as it was, so a status stored as [Hanging] stays [Hanging]. *)
Theorem advanceTransactionProgress_submit {St : Type}
    (txStore : TxStore.t St) (random : string -> nat -> Q)
    (components : TxManager.Components) (query : TxManager.Query) (s : St) :
  let run := TxManager.advanceTransactionProgress txStore random components
               query s in
  (forall txID success t,
     TxManager.submitted run = Some (txID, success, t) ->
     (exists transaction,
        match query with
        | TxManager.ById q => TxStore.GetTX txStore q s = Ok transaction
        | TxManager.ByTransaction tx => tx = transaction
        end /\
        txID = Transaction.id transaction /\
        TxManager.getStatus components transaction
          = Ok (submitted_status success)) /\
     TxManager.evaluated run = Some (submitted_status success) /\
     TxManager.jobs run = fan_out_jobs random components (phase_of success) /\
     forall component, component ∈ TxManager.getComponents components ->
       exists attempt d t',
         (attempt <= 3)%nat /\
         TxManager.second_phase_call (phase_of success) component attempt
           = Fulfilled d () /\
         settled (TxManager.job random (phase_of success) component)
           = Fulfilled t' () /\
         (t' <= t)%Q) /\
  (forall id j t e,
     (id, j) ∈ TxManager.jobs run -> settled j = Rejected t e ->
     TxManager.submitted run = None /\
     TxManager.store run = s /\
     (exists t' e', TxManager.outcome run = Rejected t' e') /\
     forall txID, TxStore.GetTX txStore txID (TxManager.store run)
                  = TxStore.GetTX txStore txID s).
Proof.
  intros run. subst run. unfold TxManager.advanceTransactionProgress.
  set (fetched := match query with
                  | TxManager.ById txID => TxStore.GetTX txStore txID s
                  | TxManager.ByTransaction transaction => Ok transaction
                  end).
  assert (Hfetched : forall transaction, fetched = Ok transaction ->
            match query with
            | TxManager.ById q => TxStore.GetTX txStore q s = Ok transaction
            | TxManager.ByTransaction tx => tx = transaction
            end).
  { subst fetched. intros transaction. destruct query; [done | congruence]. }
  destruct fetched as [transaction|e0];
    [|split; [done | intros ? ? ? ? Hin; by apply elem_of_nil in Hin]].
  specialize (Hfetched transaction eq_refl).
  destruct (TxManager.getStatus components transaction) as [[]|e0] eqn:Hstatus;
    try (split; [done | intros ? ? ? ? Hin; by apply elem_of_nil in Hin]).
  - split.
    + intros txID success t Hsub.
      destruct (fan_out_submitted _ _ _ _ _ _ _ _ _ _ _ Hsub) as (-> & -> & Hjobs).
      split_and!; [by exists transaction | apply fan_out_shape ..
                  | exact Hjobs].
    + intros id j t e Hin Hj.
      rewrite (proj2 (fan_out_shape txStore random components phase_confirm true
                        TXSuccessful transaction s)) in Hin.
      destruct (fan_out_rejected txStore random components phase_confirm true
                  TXSuccessful transaction s id j t e Hin Hj) as (Hsub & Hs & Hout).
      split_and!; [done | done | done |]. intros txID. by rewrite Hs.
  - split.
    + intros txID success t Hsub.
      destruct (fan_out_submitted _ _ _ _ _ _ _ _ _ _ _ Hsub) as (-> & -> & Hjobs).
      split_and!; [by exists transaction | apply fan_out_shape ..
                  | exact Hjobs].
    + intros id j t e Hin Hj.
      rewrite (proj2 (fan_out_shape txStore random components phase_cancel false
                        TXFailure transaction s)) in Hin.
      destruct (fan_out_rejected txStore random components phase_cancel false
                  TXFailure transaction s id j t e Hin Hj) as (Hsub & Hs & Hout).
      split_and!; [done | done | done |]. intros txID. by rewrite Hs.
Qed.

(** Both components tried successfully, but [confirm] of ["B"] fails
    with a terminal error: [TXSubmit] is not called and the stored
    transaction stays [Hanging]. *)
Lemma advanceTransactionProgress_submit_witness :
  let a := MockTxStore.MockTccComponent "A" false false false 0 in
  let b := MockTxStore.MockTccComponent "B" false true false 0 in
  let components := [("A", a); ("B", b)] in
  let random (_ : string) (_ : nat) : Q := 0%Q in
  let s :=
    ((MockTxStore.TXUpdateComponentStatus 1 "B" true
        (MockTxStore.TXUpdateComponentStatus 1 "A" true
           (MockTxStore.CreateTx [a; b] MockTxStore.init).2).2).2) in
  let run :=
    TxManager.advanceTransactionProgress MockTxStore.store random components
      (TxManager.ById 1) s in
  let failure :=
    ThrownError (new_Error "Component B confirm failed") in
  (("B", TxManager.job random phase_confirm b) ∈ TxManager.jobs run /\
   settled (TxManager.job random phase_confirm b) = Rejected (0 + 0) failure) /\
  TxManager.submitted run = None /\
  TxManager.store run = s /\
  Transaction.status <$> Map_get (MockTxStore.transactions (TxManager.store run)) 1%N
    = Some TXHanging.
Proof.
  intros a b components random s run failure.
  assert (Hjobs : TxManager.jobs run
                  = [("A", TxManager.job random phase_confirm a);
                     ("B", TxManager.job random phase_confirm b)])
    by (vm_compute; reflexivity).
  assert (Hin : ("B", TxManager.job random phase_confirm b) ∈ TxManager.jobs run).
  { rewrite Hjobs. apply list_elem_of_further, list_elem_of_here. }
  assert (Hj : settled (TxManager.job random phase_confirm b)
               = Rejected (0 + 0) failure) by reflexivity.
  destruct (proj2 (advanceTransactionProgress_submit MockTxStore.store random
                     components (TxManager.ById 1) s) _ _ _ _ Hin Hj)
    as (Hsub & Hs & _ & _).
  split_and!; [exact Hin | exact Hj | exact Hsub | exact Hs |].
  vm_compute. reflexivity.
Defined.


(** ** Starting a transaction *)

(** An array that holds a promise rejected at [t] makes [Promise.all]
    reject, at [t] or before. *)
Lemma Promise_all_with_timer {T : Type} (t : Q) (e : Thrown)
    (ps : list (Settled T)) :
  exists t' e', Promise_all (Rejected t e :: ps) = Rejected t' e' /\ (t' <= t)%Q.
Proof.
  unfold Promise_all. simpl.
  destruct (first_rejection ps) as [[t1 e1]|].
  - destruct (Qle_bool t t1) eqn:Hle.
    + exists t, e. split; [done | apply Qle_refl].
    + exists t1, e1. split; [done |].
      apply Qlt_le_weak, Qnot_le_lt. intros Hle'.
      apply Qle_bool_iff in Hle'. congruence.
  - exists t, e. split; [done | apply Qle_refl].
Qed.

Section startTransaction_facts.
Context {St : Type}.
Variable txStore : TxStore.t St.
Variable config : TxConfig.
Variable random : string -> nat -> Q.
Variable components : TxManager.Components.
Variable s : St.

Let run := TxManager.startTransaction txStore config random components s.

(** [Promise.all(jobs)] in [startTransaction] never fulfils: it rejects
    no later than the deadline. *)
Lemma try_phase_rejects :
  TxManager.try_phase run = None \/
  exists t e, TxManager.try_phase run = Some (Rejected t e) /\
              (t <= inject_Z (timeout config))%Q.
Proof.
  subst run. unfold TxManager.startTransaction.
  destruct (decide _); [by left |].
  destruct (TxStore.CreateTx txStore _ s) as [[txId|e] s1]; [|by left].
  destruct (TxManager.race _ _ _ _ _) as [settled_jobs s2].
  match goal with
  | |- context [Promise_all (Rejected ?t ?e :: ?ps)] =>
      destruct (Promise_all_with_timer t e ps) as (t' & e' & -> & Hle)
  end.
  right. simpl. by eauto.
Qed.

Lemma returned_success t txId success :
  TxManager.returned run = Fulfilled t (txId, success) ->
  exists all, TxManager.try_phase run = Some all /\ success = is_fulfilled all.
Proof.
  subst run. unfold TxManager.startTransaction.
  destruct (decide _); [done |].
  destruct (TxStore.CreateTx txStore _ s) as [[txId0|e] s1]; [|done].
  destruct (TxManager.race _ _ _ _ _) as [settled_jobs s2].
  destruct (settled_at (Promise_all _)); [|done]. simpl.
  destruct (settled_at (TxManager.outcome _)); [|done].
  intros [= _ _ <-]. by eexists.
Qed.

End startTransaction_facts.

Section timer_facts.
Context {St : Type}.
Variable txStore : TxStore.t St.
Variable config : TxConfig.
Variable random : string -> nat -> Q.



End timer_facts.

(** C3.  [startTransaction] never returns [success = true]: the timer
    promise is an element of the array given to [Promise.all] and never
    fulfils, so the array can only reject.  On the happy path (the two
    components of the test suite, whose [try] succeeds at once, with a
    timeout of 5000 ms) the call returns [{txId = 1, success = false}]
    once the timer has fired, although both tries and both status
    updates succeeded; the transaction is then confirmed and submitted
    as [Successful]. *)
Theorem startTransaction_success_unreachable :
  (forall (St : Type) (txStore : TxStore.t St) (config : TxConfig)
          (random : string -> nat -> Q) (components : TxManager.Components)
          (s : St) (t : Q) (txId : N),
     TxManager.returned
       (TxManager.startTransaction txStore config random components s)
     <> Fulfilled t (txId, true)) /\
  (let comp1 := MockTxStore.MockTccComponent "comp1" false false false 0 in
   let comp2 := MockTxStore.MockTccComponent "comp2" false false false 0 in
   let run :=
     TxManager.startTransaction MockTxStore.store (new_TxConfig 5000 1000 false)
       (fun _ _ => 0%Q) [("comp1", comp1); ("comp2", comp2)] MockTxStore.init in
   TxManager.returned run = Fulfilled 5000 (1%N, false) /\
   TxManager.try_phase run
     = Some (Rejected 5000 (ThrownError (new_TransactionTimeoutError 1 5000))) /\
   (TxManager.submitted <$> TxManager.advance run) = Some (Some (1%N, true, 0%Q)) /\
   MockTxStore.GetTX 1 (TxManager.final_store run)
     = Ok (Transaction.mk 1 TXSuccessful
             (<["comp2" := mkEntry "comp2" TrySuccessful]>
                {["comp1" := mkEntry "comp1" TrySuccessful]}) 0)).
Proof.
  split.
  - intros St txStore config random components s t txId Hret.
    apply returned_success in Hret as (all & Hall & Hsuccess).
    destruct (try_phase_rejects txStore config random components s)
      as [Hp|(t' & e & Hp & _)]; rewrite Hp in Hall; by simplify_eq.
  - vm_compute. split_and!; reflexivity.
Qed.




(* ===================================================================== *)
(** * Further properties of the code *)
(* ===================================================================== *)

(** ** The configuration *)

(** X1.  Whatever it is given, the constructor of [TxConfig] yields a
    timeout and a monitor interval greater than 0: a monitor interval
    greater than 0 is kept, any other is replaced by 1000 ms, as the
    timeout is by 5000 ms.  A configuration it has built is built
    again unchanged from its own fields. *)
Theorem TxConfig_positive (timeout_ monitorInterval_ : Z) (enableMonitor_ : bool) :
  let config := new_TxConfig timeout_ monitorInterval_ enableMonitor_ in
  0 < timeout config /\
  0 < monitorInterval config /\
  enableMonitor config = enableMonitor_ /\
  monitorInterval config
  = (if decide (0 < monitorInterval_) then monitorInterval_ else 1000) /\
  new_TxConfig (timeout config) (monitorInterval config) (enableMonitor config)
  = config.
Proof.
  intros config. subst config. unfold new_TxConfig. simpl.
  destruct (decide (timeout_ > 0)), (decide (monitorInterval_ > 0));
    repeat case_decide; split_and!; first [lia | done].
Qed.

(** ** The MySQL store under driver faults *)

Section scripted_facts.
Import MySQLTxStore.
Context {T : Type}.
Variable random : nat -> Q.
Variable finalConfig : RetryConfig.
Variable operation : string.
Variable body : Pool -> Settled T * Pool.

Lemma scripted_fault k rows next fs clock :
  scripted operation body k (mkPool rows next (true :: fs) clock)
  = (Rejected 0 (storage_failure operation), mkPool rows next fs clock).
Proof. reflexivity. Qed.

Lemma scripted_runs k pool :
  leading_faults (faults pool) = 0%nat ->
  scripted operation body k pool = body (after_faults 0 pool).
Proof.
  intros H. destruct pool as [rows next [|[] fs] clock]; simpl in H;
    try done; reflexivity.
Qed.

Lemma retry_trace_cons a n :
  [Attempt a; Sleep (finalDelay random finalConfig a)]
    ++ retry_trace random finalConfig (S a) n
  = retry_trace random finalConfig a (S n).
Proof.
  unfold retry_trace. simpl. by rewrite Nat.add_succ_r.
Qed.

(** The statement runs as soon as the driver lets it, if attempts are
    left, and what it answers is what the call answers. *)
Lemma scripted_loop_runs remaining attempt t pool :
  let k := leading_faults (faults pool) in
  let r := body (after_faults k pool) in
  (k <= remaining)%nat ->
  ~ retryable_failure r.1 ->
  exists t',
    loop (scripted operation body) random finalConfig remaining attempt t pool
    = mkRun (retime t' r.1) r.2 (retry_trace random finalConfig attempt k).
Proof.
  revert attempt t pool.
  induction remaining as [|remaining IH]; intros attempt t pool k r Hk Hr;
    subst k r; rewrite loop_unfold.
  - assert (H0 : leading_faults (faults pool) = 0%nat) by lia.
    rewrite scripted_runs by done. rewrite H0 in Hr |- *.
    exists t. unfold retry_trace. simpl. rewrite Nat.add_0_r.
    destruct (body (after_faults 0 pool)) as [[d v|d e|] pool'] eqn:Hbody;
      simpl in *; [done | | done].
    destruct (instanceof_RetryableError e) eqn:He; [|done].
    exfalso. apply Hr. by exists d, e.
  - destruct pool as [rows next [|[] fs] clock].
    + rewrite scripted_runs by done. simpl in Hr |- *.
      exists t. unfold retry_trace. simpl. rewrite Nat.add_0_r.
      destruct (body _) as [[d v|d e|] pool'] eqn:Hbody; simpl in *;
        [done | | done].
      destruct (instanceof_RetryableError e) eqn:He; [|done].
      exfalso. apply Hr. by exists d, e.
    + rewrite scripted_fault. simpl in Hk, Hr.
      cbn [instanceof_RetryableError storage_failure new_RetryableError class_of].
      rewrite bool_decide_eq_true_2 by done. cbn [negb].
      destruct (IH (S attempt)
                  (t + 0 + finalDelay random finalConfig attempt)%Q
                  (mkPool rows next fs clock)) as [t' Hrun];
        [simpl; lia | exact Hr |].
      rewrite Hrun. exists t'. unfold after. simpl settled. simpl state.
      cbn [faults leading_faults]. f_equal.
      cbn [trace]. apply retry_trace_cons.
    + rewrite scripted_runs by done. simpl in Hr |- *.
      exists t. unfold retry_trace. simpl. rewrite Nat.add_0_r.
      destruct (body _) as [[d v|d e|] pool'] eqn:Hbody; simpl in *;
        [done | | done].
      destruct (instanceof_RetryableError e) eqn:He; [|done].
      exfalso. apply Hr. by exists d, e.
Qed.

(** When the driver rejects more statements in a row than there are
    attempts, the call gives up with the storage failure. *)
Lemma scripted_loop_exhausted remaining attempt t pool :
  (remaining < leading_faults (faults pool))%nat ->
  exists t',
    loop (scripted operation body) random finalConfig remaining attempt t pool
    = mkRun (Rejected t' (storage_failure operation))
            (after_rejections (S remaining) pool)
            (retry_trace random finalConfig attempt remaining).
Proof.
  revert attempt t pool.
  induction remaining as [|remaining IH]; intros attempt t pool Hk;
    rewrite loop_unfold;
    destruct pool as [rows next [|[] fs] clock]; simpl in Hk; try lia;
    rewrite scripted_fault;
    cbn [instanceof_RetryableError storage_failure new_RetryableError class_of];
    rewrite bool_decide_eq_true_2 by done; cbn [negb].
  - eexists. unfold retry_trace, after_rejections. simpl.
    by rewrite Nat.add_0_r, drop_0.
  - destruct (IH (S attempt)
                (t + 0 + finalDelay random finalConfig attempt)%Q
                (mkPool rows next fs clock)) as [t' Hrun]; [simpl; lia |].
    rewrite Hrun. exists t'. unfold after. simpl settled. simpl state.
    f_equal. cbn [trace]. apply retry_trace_cons.
Qed.
End scripted_facts.

Section MySQLTxStore_runs.
Import MySQLTxStore.
Variable random : nat -> Q.
Implicit Types (pool : Pool) (rows : list Row) (row : Row).

(** A store call either runs its statement on the first attempt the
    driver lets through, or gives up after four rejections. *)
Lemma scripted_withRetry {T : Type} (operation : string)
    (body : Pool -> Settled T * Pool) pool :
  let k := leading_faults (faults pool) in
  let r := body (after_faults k pool) in
  ((k <= 3)%nat -> ~ retryable_failure r.1) ->
  exists t,
    withRetry (scripted operation body) random no_overrides pool
    = if decide (k <= 3)%nat
      then mkRun (retime t r.1) r.2 (retry_trace random DEFAULT_RETRY_CONFIG 0 k)
      else mkRun (Rejected t (storage_failure operation))
                 (after_rejections 4 pool)
                 (retry_trace random DEFAULT_RETRY_CONFIG 0 3).
Proof.
  intros k r Hr.
  change (withRetry (scripted operation body) random no_overrides pool)
    with (loop (scripted operation body) random DEFAULT_RETRY_CONFIG 3 0 0 pool).
  destruct (decide (k <= 3)%nat) as [Hk|Hk].
  - by apply scripted_loop_runs; [|apply Hr].
  - apply scripted_loop_exhausted. subst k. lia.
Qed.

Lemma CreateTx_scripted components pool :
  CreateTx random components pool
  = withRetry (scripted "CreateTx" (CreateTx_body components)) random
              no_overrides pool.
Proof. reflexivity. Qed.

Lemma TXUpdateComponentStatus_scripted txID componentID accept pool :
  TXUpdateComponentStatus random txID componentID accept pool
  = withRetry (scripted "TXUpdateComponentStatus"
                 (TXUpdateComponentStatus_body txID componentID accept))
              random no_overrides pool.
Proof. reflexivity. Qed.

Lemma TXSubmit_scripted txID success pool :
  TXSubmit random txID success pool
  = withRetry (scripted "TXSubmit" (TXSubmit_body txID success)) random
              no_overrides pool.
Proof. reflexivity. Qed.

Lemma GetHangingTXs_scripted pool :
  GetHangingTXs random pool
  = withRetry (scripted "GetHangingTXs" GetHangingTXs_body) random
              no_overrides pool.
Proof. reflexivity. Qed.

Lemma GetTX_scripted txID pool :
  GetTX random txID pool
  = withRetry (scripted "GetTX" (GetTX_body txID)) random no_overrides pool.
Proof. reflexivity. Qed.

(** The statements that run never answer with a retryable failure,
    except the insertion that is given the id 0. *)
Lemma TXUpdateComponentStatus_body_terminal txID componentID accept pool :
  ~ retryable_failure (TXUpdateComponentStatus_body txID componentID accept pool).1.
Proof.
  unfold TXUpdateComponentStatus_body. intros (d & e & Heq & He).
  destruct (decide _); simpl in Heq; by simplify_eq.
Qed.

Lemma TXSubmit_body_terminal txID success pool :
  ~ retryable_failure (TXSubmit_body txID success pool).1.
Proof.
  unfold TXSubmit_body. intros (d & e & Heq & He).
  destruct (decide _); simpl in Heq; by simplify_eq.
Qed.

Lemma GetHangingTXs_body_terminal pool :
  ~ retryable_failure (GetHangingTXs_body pool).1.
Proof. by intros (d & e & Heq & He). Qed.

Lemma GetTX_body_terminal txID pool :
  ~ retryable_failure (GetTX_body txID pool).1.
Proof.
  unfold GetTX_body. intros (d & e & Heq & He).
  destruct (select_by_id _ _); simpl in Heq; by simplify_eq.
Qed.

Lemma CreateTx_body_terminal components pool :
  auto_increment pool <> 0%N ->
  ~ retryable_failure (CreateTx_body components pool).1.
Proof.
  unfold CreateTx_body. intros Hne (d & e & Heq & He).
  rewrite decide_False in Heq by done. by simplify_eq.
Qed.
End MySQLTxStore_runs.

Section table_facts.
Import MySQLTxStore.
Implicit Types (pool : Pool) (rows : list Row) (row : Row).


Lemma stored_None txID rows :
  stored txID rows = None <-> affectedRows txID rows = 0%nat.
Proof.
  unfold stored, affectedRows, select_by_id.
  by destruct (filter _ rows).
Qed.

Lemma stored_other txID status rows id' :
  id' <> txID ->
  stored id' (update_status status txID rows) = stored id' rows.
Proof.
  intros Hne. unfold stored, select_by_id, update_status.
  induction rows as [|row rows IH]; [done |].
  rewrite fmap_cons, !filter_cons.
  destruct (decide (row_id row = txID)) as [Heq|Hother]; simpl.
  - rewrite !decide_False by congruence. apply IH.
  - destruct (decide (row_id row = id')); [done | apply IH].
Qed.

Lemma update_status_with_status status txID rows :
  stored txID (update_status status txID rows)
  = with_status status <$> stored txID rows.
Proof.
  unfold stored, select_by_id, update_status.
  induction rows as [|row rows IH]; [done |].
  rewrite fmap_cons, !filter_cons.
  destruct (decide (row_id row = txID)) as [Heq|Hother]; simpl.
  - by rewrite decide_True.
  - rewrite decide_False by done. apply IH.
Qed.



Lemma update_status_ids status txID rows :
  row_id <$> update_status status txID rows = row_id <$> rows.
Proof.
  unfold update_status. rewrite <- list_fmap_compose. apply list_fmap_ext.
  intros _ row _. simpl. by destruct (decide _).
Qed.

Lemma update_component_ids componentID status txID rows :
  row_id <$> update_component componentID status txID rows = row_id <$> rows.
Proof.
  unfold update_component. rewrite <- list_fmap_compose. apply list_fmap_ext.
  intros _ row _. simpl. by destruct (decide _).
Qed.

Lemma update_component_absent componentID status txID rows :
  affectedRows txID rows = 0%nat ->
  update_component componentID status txID rows = rows.
Proof.
  unfold affectedRows, update_component.
  induction rows as [|row rows IH]; [done |].
  rewrite filter_cons, fmap_cons.
  destruct (decide (row_id row = txID)); [done |]. intros H. by rewrite IH.
Qed.

Lemma update_status_absent status txID rows :
  affectedRows txID rows = 0%nat -> update_status status txID rows = rows.
Proof.
  unfold affectedRows, update_status.
  induction rows as [|row rows IH]; [done |].
  rewrite filter_cons, fmap_cons.
  destruct (decide (row_id row = txID)); [done |]. intros H. by rewrite IH.
Qed.

End table_facts.

Section MySQLTxStore_run_facts.
Import MySQLTxStore.
Implicit Types (pool : Pool) (rows : list Row) (row : Row).



Lemma GetTX_run random txID pool :
  let k := leading_faults (faults pool) in
  (k <= 3)%nat ->
  exists t,
    GetTX random txID pool
    = mkRun match stored txID (tx_record pool) with
            | Some row => Fulfilled t (parseTransactionRow row)
            | None => Rejected t (ThrownError (new_TransactionNotFoundError txID))
            end
            (after_faults k pool) (retry_trace random DEFAULT_RETRY_CONFIG 0 k).
Proof.
  intros k Hk. rewrite GetTX_scripted.
  destruct (scripted_withRetry random "GetTX" (GetTX_body txID) pool)
    as [t Hrun].
  { intros _. apply GetTX_body_terminal. }
  fold k in Hrun. rewrite decide_True in Hrun by done. rewrite Hrun.
  unfold GetTX_body, stored. cbn [after_faults tx_record].
  destruct (select_by_id txID (tx_record pool)); simpl; by eexists.
Qed.

End MySQLTxStore_run_facts.

Section MySQLTxStore_behaviour.
Import MySQLTxStore.



(** X3.  A transaction that is not stored: the two updates and the query
    throw [TransactionNotFoundError] on the first attempt the driver
    lets through, make no further attempt and leave the table as it
    was. *)
Theorem MySQLTxStore_not_found (random : nat -> Q) (txID : N) (pool : Pool) :
  let k := leading_faults (faults pool) in
  (k <= 3)%nat ->
  stored txID (tx_record pool) = None ->
  (forall componentID accept,
     not_found_at random txID k pool
       (TXUpdateComponentStatus random txID componentID accept pool)) /\
  (forall success,
     not_found_at random txID k pool (TXSubmit random txID success pool)) /\
  not_found_at random txID k pool (GetTX random txID pool).
Proof.
  intros k Hk Hnone. pose proof Hnone as Hzero. apply stored_None in Hzero.
  split_and!.
  - intros componentID accept. rewrite TXUpdateComponentStatus_scripted.
    destruct (scripted_withRetry random "TXUpdateComponentStatus"
                (TXUpdateComponentStatus_body txID componentID accept) pool)
      as [t Hrun].
    { intros _. apply TXUpdateComponentStatus_body_terminal. }
    fold k in Hrun. rewrite decide_True in Hrun by done. rewrite Hrun.
    unfold TXUpdateComponentStatus_body. cbn [after_faults tx_record].
    rewrite decide_True by done. rewrite update_component_absent by done.
    exists (t + 0)%Q. done.
  - intros success. rewrite TXSubmit_scripted.
    destruct (scripted_withRetry random "TXSubmit" (TXSubmit_body txID success)
                pool) as [t Hrun].
    { intros _. apply TXSubmit_body_terminal. }
    fold k in Hrun. rewrite decide_True in Hrun by done. rewrite Hrun.
    unfold TXSubmit_body. cbn [after_faults tx_record].
    rewrite decide_True by done. rewrite update_status_absent by done.
    exists (t + 0)%Q. done.
  - destruct (GetTX_run random txID pool Hk) as [t Hrun].
    rewrite Hnone in Hrun. by exists t.
Qed.

Lemma MySQLTxStore_not_found_witness :
  let pool := mkPool [mkRow 1 TXHanging ∅ 0] 2 [true] 0 in
  let random (_ : nat) : Q := 0%Q in
  ((leading_faults (faults pool) <= 3)%nat /\
   stored 9 (tx_record pool) = None) /\
  not_found_at random 9 1 pool (TXSubmit random 9 true pool).
Proof.
  intros pool random.
  assert (Hk : (leading_faults (faults pool) <= 3)%nat) by (simpl; lia).
  assert (Hnone : stored 9 (tx_record pool) = None) by reflexivity.
  split; [exact (conj Hk Hnone) |].
  exact (proj1 (proj2 (MySQLTxStore_not_found random 9 pool Hk Hnone)) true).
Defined.



(** X5.  [TXSubmit] on a stored transaction succeeds on the first attempt the
    driver lets through and writes the status column of that
    transaction only, whatever the status was before, a terminal one
    included: every other row, the identifiers and the counter are as
    before. *)
Theorem TXSubmit_writes (random : nat -> Q) (txID : N) (success : bool)
    (pool : Pool) :
  let k := leading_faults (faults pool) in
  let run := TXSubmit random txID success pool in
  (k <= 3)%nat ->
  is_Some (stored txID (tx_record pool)) ->
  (exists t, settled run = Fulfilled t ()) /\
  trace run = retry_trace random DEFAULT_RETRY_CONFIG 0 k /\
  (forall id',
     stored id' (tx_record (state run))
     = if decide (id' = txID)
       then with_status (submitted_status success)
              <$> stored id' (tx_record pool)
       else stored id' (tx_record pool)) /\
  row_id <$> tx_record (state run) = row_id <$> tx_record pool /\
  auto_increment (state run) = auto_increment pool.
Proof.
  intros k run Hk Hsome. subst run. rewrite TXSubmit_scripted.
  destruct (scripted_withRetry random "TXSubmit" (TXSubmit_body txID success)
              pool) as [t Hrun].
  { intros _. apply TXSubmit_body_terminal. }
  fold k in Hrun. rewrite decide_True in Hrun by done. rewrite Hrun.
  unfold TXSubmit_body. cbn [after_faults tx_record].
  assert (Hfound : affectedRows txID (tx_record pool) <> 0%nat).
  { intros Hz. apply stored_None in Hz. rewrite Hz in Hsome.
    by destruct Hsome. }
  rewrite decide_False by done. cbn [fst snd settled state trace retime].
  split_and!; [by eexists | done | | apply update_status_ids | done].
  intros id'. cbn [with_table tx_record].
  fold (submitted_status success).
  destruct (decide (id' = txID)) as [->|Hne].
  - apply update_status_with_status.
  - by apply stored_other.
Qed.

(** A transaction stored as [Successful] is overwritten by
    [TXSubmit(id, false)]. *)
Lemma TXSubmit_writes_witness :
  let pool := mkPool [mkRow 1 TXSuccessful ∅ 0; mkRow 2 TXHanging ∅ 0] 3 [] 0 in
  let random (_ : nat) : Q := 0%Q in
  let run := TXSubmit random 1 false pool in
  ((leading_faults (faults pool) <= 3)%nat /\
   is_Some (stored 1 (tx_record pool))) /\
  stored 1 (tx_record (state run)) = Some (mkRow 1 TXFailure ∅ 0) /\
  stored 2 (tx_record (state run)) = Some (mkRow 2 TXHanging ∅ 0).
Proof.
  intros pool random run.
  assert (Hk : (leading_faults (faults pool) <= 3)%nat) by (simpl; lia).
  assert (Hsome : is_Some (stored 1 (tx_record pool))) by (by eexists).
  split; [exact (conj Hk Hsome) |].
  destruct (TXSubmit_writes random 1 false pool Hk Hsome)
    as (_ & _ & Hstored & _).
  split; [exact (Hstored 1%N) | exact (Hstored 2%N)].
Defined.


End MySQLTxStore_behaviour.

Section well_formed_facts.
Import MySQLTxStore.
Implicit Types (pool : Pool) (rows : list Row) (row : Row).

Lemma well_formed_same_ids pool pool' :
  row_id <$> tx_record pool' = row_id <$> tx_record pool ->
  auto_increment pool' = auto_increment pool ->
  well_formed pool -> well_formed pool'.
Proof. unfold well_formed. intros -> ->. done. Qed.

Lemma well_formed_insert pool doc clock fs :
  well_formed pool ->
  well_formed
    (mkPool (tx_record pool ++ [mkRow (auto_increment pool) TXHanging doc clock])
            (N.succ (auto_increment pool)) fs clock).
Proof.
  intros (Hnodup & Hbelow & Hnext). unfold well_formed. simpl.
  rewrite fmap_app. simpl. split_and!.
  - apply NoDup_app. split_and!; [done | | apply NoDup_singleton].
    intros id Hin Hnew. apply list_elem_of_singleton in Hnew as ->.
    rewrite Forall_forall in Hbelow. specialize (Hbelow _ Hin). lia.
  - apply Forall_app. split.
    + eapply Forall_impl; [exact Hbelow |]. simpl. lia.
    + apply Forall_singleton. lia.
  - lia.
Qed.


End well_formed_facts.

Section MySQLTxStore_composition.
Import MySQLTxStore.






(** X9.  The five operations keep the table as MySQL keeps it, distinct ids
    below the AUTO_INCREMENT counter, whatever the driver does. *)
Theorem MySQLTxStore_well_formed (random : nat -> Q) (pool : Pool) :
  well_formed pool ->
  (forall components, well_formed (state (CreateTx random components pool))) /\
  (forall txID componentID accept,
     well_formed (state (TXUpdateComponentStatus random txID componentID
                           accept pool))) /\
  (forall txID success, well_formed (state (TXSubmit random txID success pool))) /\
  well_formed (state (GetHangingTXs random pool)) /\
  (forall txID, well_formed (state (GetTX random txID pool))).
Proof.
  intros Hwf.
  assert (Hafter : forall k, well_formed (after_faults k pool)).
  { intros k. by apply (well_formed_same_ids pool). }
  assert (Hrejected : well_formed (after_rejections 4 pool)).
  { by apply (well_formed_same_ids pool). }
  split_and!.
  - intros components. rewrite CreateTx_scripted.
    destruct (scripted_withRetry random "CreateTx" (CreateTx_body components)
                pool) as [t ->].
    { intros _. apply CreateTx_body_terminal. apply Hwf. }
    case_decide; [|done]. unfold CreateTx_body.
    cbn [after_faults tx_record auto_increment now faults].
    rewrite decide_False by apply Hwf. cbn [snd state].
    by apply (well_formed_insert pool).
  - intros txID componentID accept. rewrite TXUpdateComponentStatus_scripted.
    destruct (scripted_withRetry random "TXUpdateComponentStatus"
                (TXUpdateComponentStatus_body txID componentID accept) pool)
      as [t ->].
    { intros _. apply TXUpdateComponentStatus_body_terminal. }
    case_decide; [|done]. unfold TXUpdateComponentStatus_body.
    apply (well_formed_same_ids pool); [| by destruct (decide _) | done].
    destruct (decide _); apply update_component_ids.
  - intros txID success. rewrite TXSubmit_scripted.
    destruct (scripted_withRetry random "TXSubmit" (TXSubmit_body txID success)
                pool) as [t ->].
    { intros _. apply TXSubmit_body_terminal. }
    case_decide; [|done]. unfold TXSubmit_body.
    apply (well_formed_same_ids pool); [| by destruct (decide _) | done].
    destruct (decide _); apply update_status_ids.
  - rewrite GetHangingTXs_scripted.
    destruct (scripted_withRetry random "GetHangingTXs" GetHangingTXs_body pool)
      as [t ->].
    { intros _. apply GetHangingTXs_body_terminal. }
    case_decide; [apply Hafter | done].
  - intros txID. rewrite GetTX_scripted.
    destruct (scripted_withRetry random "GetTX" (GetTX_body txID) pool)
      as [t ->].
    { intros _. apply GetTX_body_terminal. }
    case_decide; [|done]. unfold GetTX_body. cbn [after_faults tx_record].
    destruct (select_by_id _ _); apply Hafter.
Qed.

Lemma MySQLTxStore_well_formed_witness :
  let pool := mkPool [mkRow 1 TXHanging ∅ 0] 2 [true; true] 0 in
  let random (_ : nat) : Q := 0%Q in
  well_formed pool /\ well_formed (state (CreateTx random [] pool)).
Proof.
  intros pool random.
  assert (Hwf : well_formed pool).
  { unfold well_formed. simpl. split_and!.
    - apply NoDup_singleton.
    - apply Forall_singleton. lia.
    - lia. }
  split; [exact Hwf |].
  destruct (MySQLTxStore_well_formed random pool Hwf) as (Hcreate & _).
  exact (Hcreate []).
Defined.


End MySQLTxStore_composition.

(** ** The retry helper, in general *)

Section loop_ends_facts.
Context {St T : Type}.
Variable operation : nat -> St -> Settled T * St.
Variable random : nat -> Q.
Variable finalConfig : RetryConfig.
Variable s : St.

Lemma attempts_retry_trace a n :
  attempts (retry_trace random finalConfig a n) = S n /\
  sleeps_of (retry_trace random finalConfig a n) = n.
Proof.
  unfold retry_trace. revert a.
  induction n as [|n IH]; intros a; [done |].
  destruct (IH (S a)) as [Ha Hs]. rewrite Nat.add_succ_r. simpl.
  simpl in Ha, Hs. by rewrite Ha, Hs.
Qed.

Lemma retry_trace_sleeps a n d :
  Sleep d ∈ retry_trace random finalConfig a n ->
  exists k, (a <= k < a + n)%nat /\ d = finalDelay random finalConfig k.
Proof.
  unfold retry_trace. intros Hin. apply elem_of_app in Hin as [Hin|Hin].
  - apply list_elem_of_In, in_flat_map in Hin as (k & Hk & Hin).
    apply in_seq in Hk. exists k. split; [lia |].
    destruct Hin as [Heq|[Heq|[]]]; by simplify_eq.
  - apply list_elem_of_singleton in Hin. done.
Qed.

(** The loop ends at some attempt [n]: every attempt before it failed
    with a retryable error, and attempt [n] either did not, or was the
    last one allowed. *)
Lemma loop_ends (remaining k : nat) :
  (forall j, (j < k)%nat -> retryable_failure (outcome_of operation s j)) ->
  exists n,
    (k <= n <= k + remaining)%nat /\
    (forall j, (j < n)%nat -> retryable_failure (outcome_of operation s j)) /\
    (retryable_failure (outcome_of operation s n) -> n = (k + remaining)%nat) /\
    loop operation random finalConfig remaining k
         (now_before operation random finalConfig s k)
         (state_before operation s k)
    = mkRun (retime (now_before operation random finalConfig s n)
                    (outcome_of operation s n))
            (state_after operation s n)
            (retry_trace random finalConfig k (n - k)).
Proof.
  revert k. induction remaining as [|remaining IH]; intros k Hbefore;
    rewrite loop_last; cbv zeta;
    destruct (outcome_of operation s k) as [d v|d e|] eqn:Ho.
  1, 3, 4, 6:
    exists k; rewrite Ho, Nat.sub_diag; unfold retry_trace; simpl;
    rewrite Nat.add_0_r;
    (split; [lia |]; split_and!; [done | by intros (? & ? & ? & ?) | done]).
  - exists k. rewrite Ho, Nat.sub_diag. unfold retry_trace. simpl.
    rewrite !Nat.add_0_r.
    split; [lia |]. split_and!; [done | done | by destruct (negb _)].
  - destruct (instanceof_RetryableError e) eqn:He; cbn [negb].
    + destruct (IH (S k)) as (n & Hn & Hfail & Hlast & Hrun).
      { intros j Hj. destruct (decide (j = k)) as [->|Hne].
        - rewrite Ho. by exists d, e.
        - apply Hbefore. lia. }
      exists n. split; [lia |]. split_and!; [done | intros H; apply Hlast in H; lia |].
      assert (Hnow : now_before operation random finalConfig s (S k)
                     = (now_before operation random finalConfig s k + d
                        + finalDelay random finalConfig k)%Q).
      { simpl. by rewrite Ho. }
      change (state_after operation s k) with (state_before operation s (S k)).
      rewrite <- Hnow, Hrun. unfold after. cbn [settled state trace]. f_equal.
      replace (n - k)%nat with (S (n - S k)) by lia.
      apply (retry_trace_cons random finalConfig k (n - S k)).
    + exists k. rewrite Ho, Nat.sub_diag. unfold retry_trace. simpl.
      rewrite Nat.add_0_r.
      split; [lia |]. split_and!; [done | | done].
      intros (d' & e' & Heq & He'). simplify_eq. congruence.
Qed.
End loop_ends_facts.

(** X11.  Whatever the operation does, [withRetry] ends.  With a negative
    [maxRetries] it makes no attempt at all and throws [undefined].
    Otherwise it ends with some attempt number [n <= maxRetries], after
    [n] failures [withRetry] retries and [n] sleeps, with what attempt
    [n] answered; that answer is a failure [withRetry] retries only
    when [n] is [maxRetries]. *)
Theorem withRetry_ends {St T : Type}
    (operation : nat -> St -> Settled T * St) (random : nat -> Q)
    (config : PartialRetryConfig) (s : St) :
  let finalConfig := spread config in
  let run := withRetry operation random config s in
  (maxRetries finalConfig < 0 ->
     run = mkRun (Rejected 0 (ThrownValue "undefined")) s []) /\
  (0 <= maxRetries finalConfig ->
     exists n,
       Z.of_nat n <= maxRetries finalConfig /\
       (forall k, (k < n)%nat -> retryable_failure (outcome_of operation s k)) /\
       (retryable_failure (outcome_of operation s n) ->
          Z.of_nat n = maxRetries finalConfig) /\
       run = mkRun (retime (now_before operation random finalConfig s n)
                           (outcome_of operation s n))
                   (state_after operation s n)
                   (trace_upto random finalConfig n) /\
       attempts (trace run) = S n /\
       sleeps_of (trace run) = n).
Proof.
  intros finalConfig run. subst run. unfold withRetry, withRetry_from.
  fold finalConfig. split.
  - intros Hneg. by rewrite decide_True.
  - intros Hpos. rewrite decide_False by lia.
    destruct (loop_ends operation random finalConfig s
                (Z.to_nat (maxRetries finalConfig)) 0)
      as (n & Hn & Hfail & Hlast & Hrun); [intros j Hj; lia |].
    exists n. rewrite Nat.sub_0_r in Hrun. cbn [now_before state_before] in Hrun.
    rewrite Hrun.
    split_and!; [lia | done | intros H; apply Hlast in H; lia | done | |];
      apply attempts_retry_trace.
Qed.

(** The lock operation of the MySQL store asks for one retry: an
    operation that keeps failing is attempted twice. *)
Lemma withRetry_ends_witness :
  let operation (k : nat) (_ : unit) : Settled unit * unit :=
    (Rejected 1 (ThrownError (new_RetryableError "busy")), ()) in
  let random (_ : nat) : Q := 0%Q in
  let config := mkPartialRetryConfig (Some 1) None None None None in
  0 <= maxRetries (spread config) /\
  exists n,
    Z.of_nat n <= 1 /\
    attempts (trace (withRetry operation random config ())) = S n.
Proof.
  intros operation random config.
  assert (Hpos : 0 <= maxRetries (spread config)) by (simpl; lia).
  split; [exact Hpos |].
  destruct (proj2 (withRetry_ends operation random config ()) Hpos)
    as (n & Hn & _ & _ & _ & Ha & _).
  exists n. split; [exact Hn | exact Ha].
Defined.

(** X12.  No sleep of [withRetry] is longer than [maxDelayMs] plus the
    jitter bound, and none is shorter than the capped exponential
    delay of its attempt. *)
Theorem withRetry_sleeps {St T : Type}
    (operation : nat -> St -> Settled T * St) (random : nat -> Q)
    (config : PartialRetryConfig) (s : St) (j d : Q) :
  let finalConfig := spread config in
  let run := withRetry operation random config s in
  jitterMs finalConfig = Some j ->
  (0 <= j)%Q ->
  (forall k, (0 <= random k)%Q /\ (random k < 1)%Q) ->
  Sleep d ∈ trace run ->
  (d <= maxDelayMs finalConfig + j)%Q /\
  exists k,
    Z.of_nat k < maxRetries finalConfig /\
    d = finalDelay random finalConfig k /\
    (delay finalConfig k <= d)%Q.
Proof.
  intros finalConfig run Hj Hjpos Hrandom Hin. subst run.
  unfold withRetry, withRetry_from in Hin. fold finalConfig in Hin.
  destruct (decide (maxRetries finalConfig < 0)) as [Hm|Hm].
  { by apply elem_of_nil in Hin. }
  destruct (loop_ends operation random finalConfig s
              (Z.to_nat (maxRetries finalConfig)) 0)
    as (n & Hn & _ & _ & Hrun); [intros ? ?; lia |].
  cbn [now_before state_before] in Hrun. rewrite Hrun in Hin.
  cbn [trace] in Hin. rewrite Nat.sub_0_r in Hin.
  apply (retry_trace_sleeps random finalConfig 0 n) in Hin as (k & Hk & ->).
  assert (Hjit : (0 <= jitter random finalConfig k)%Q /\
                 (jitter random finalConfig k <= j)%Q).
  { unfold jitter. rewrite Hj. destruct (Qeq_bool j 0); [done |].
    destruct (Hrandom k) as [Hlo Hhi]. split.
    - by apply Qmult_le_0_compat.
    - rewrite <- (Qmult_1_l j) at 2.
      apply Qmult_le_compat_r; [by apply Qlt_le_weak | done]. }
  destruct Hjit as [Hjlo Hjhi]. unfold finalDelay. split.
  - apply Qplus_le_compat; [apply Q.le_min_r | done].
  - exists k. split_and!; [lia | done |].
    rewrite <- (Qplus_0_r (delay finalConfig k)) at 1.
    apply Qplus_le_compat; [apply Qle_refl | done].
Qed.

Lemma withRetry_sleeps_witness :
  let operation (k : nat) (_ : unit) : Settled unit * unit :=
    (Rejected 1 (ThrownError (new_RetryableError "busy")), ()) in
  let random (_ : nat) : Q := 1 # 2 in
  let run := withRetry operation random no_overrides () in
  let d := finalDelay random DEFAULT_RETRY_CONFIG 1 in
  (jitterMs (spread no_overrides) = Some 100%Q /\
   (0 <= 100)%Q /\
   (forall k, (0 <= random k)%Q /\ (random k < 1)%Q) /\
   Sleep d ∈ trace run) /\
  (d <= maxDelayMs (spread no_overrides) + 100)%Q.
Proof.
  intros operation random run d.
  assert (Hj : jitterMs (spread no_overrides) = Some 100%Q) by reflexivity.
  assert (Hpos : (0 <= 100)%Q) by done.
  assert (Hrandom : forall k, (0 <= random k)%Q /\ (random k < 1)%Q) by done.
  assert (Hin : Sleep d ∈ trace run).
  { vm_compute. do 3 apply list_elem_of_further. apply list_elem_of_here. }
  split; [exact (conj Hj (conj Hpos (conj Hrandom Hin))) |].
  exact (proj1 (withRetry_sleeps operation random no_overrides () 100 d
                  Hj Hpos Hrandom Hin)).
Defined.

(** ** The registry *)

Section registry_facts.
Implicit Types (m : TxManager.Components) (c : TccComponent.t) (k : string).

Lemma Map_get_snoc m k k' c :
  Map_get (m ++ [(k', c)]) k
  = match Map_get m k with
    | Some c0 => Some c0
    | None => if decide (k' = k) then Some c else None
    end.
Proof.
  induction m as [|[k0 c0] m IH]; simpl; [done |].
  by destruct (decide (k0 = k)).
Qed.

Lemma first_with_id_snoc k cs c :
  first_with_id k (cs ++ [c])
  = match first_with_id k cs with
    | Some c0 => Some c0
    | None => if decide (TccComponent.id c = k) then Some c else None
    end.
Proof.
  unfold first_with_id. rewrite filter_app.
  destruct (filter _ cs) as [|c0 l]; simpl; [|done].
  rewrite filter_cons. by destruct (decide _).
Qed.

Lemma registry_of_snoc cs c :
  registry_of (cs ++ [c]) = (TxManager.register c (registry_of cs)).2.
Proof. unfold registry_of. by rewrite foldl_app. Qed.
End registry_facts.

(** X13.  However [register] is called, the registry holds each id once,
    files every component under its own id, and keeps for an id the
    first component registered under it; [getComponents] lists the
    components kept, in the order of their registration. *)
Theorem register_registry (cs : list TccComponent.t) :
  let components := registry_of cs in
  NoDup (Map_keys components) /\
  Map_keys components = TccComponent.id <$> TxManager.getComponents components /\
  (forall k, Map_get components k = first_with_id k cs) /\
  TxManager.getComponents components ⊆+ cs /\
  (forall c, c ∈ cs -> TccComponent.id c ∈ Map_keys components).
Proof.
  induction cs as [|c cs IH] using rev_ind.
  - split_and!; [apply NoDup_nil_2 | done | done | done |].
    intros c Hc. by apply elem_of_nil in Hc.
  - destruct IH as (Hnodup & Hkeys & Hget & Hsub & Hall).
    cbv zeta. rewrite registry_of_snoc. unfold TxManager.register.
    destruct (Map_has (registry_of cs) (TccComponent.id c)) eqn:Hhas; simpl.
    + apply Map_has_true in Hhas. split_and!; [done | done | | |].
      * intros k. rewrite first_with_id_snoc, <- Hget.
        destruct (Map_get (registry_of cs) k) eqn:Hk; [done |].
        apply Map_get_None in Hk. rewrite decide_False; [done |].
        by intros <-.
      * by apply submseteq_inserts_r.
      * intros c0 [Hc0|Hc0%list_elem_of_singleton]%elem_of_app;
          [by apply Hall | by subst].
    + assert (Hfresh : TccComponent.id c ∉ Map_keys (registry_of cs)).
      { intros Hin. apply Map_has_true in Hin. congruence. }
      rewrite Map_set_fresh by done.
      unfold Map_keys, TxManager.getComponents, Map_values in *.
      rewrite !fmap_app. simpl. split_and!.
      * apply NoDup_app. split_and!; [done | | apply NoDup_singleton].
        intros k Hk Hk'%list_elem_of_singleton. by subst.
      * by rewrite Hkeys.
      * intros k. rewrite Map_get_snoc, first_with_id_snoc, <- Hget. done.
      * by apply submseteq_app.
      * intros c0 [Hc0|Hc0%list_elem_of_singleton]%elem_of_app.
        -- apply elem_of_app. left. by apply Hall.
        -- subst. apply elem_of_app. right. apply list_elem_of_here.
Qed.

(** ** Second-phase jobs *)

Section job_facts.
Variable random : string -> nat -> Q.
Variable phase : Phase.
Variable component : TccComponent.t.

Lemma guarded_call_retried attempt d e :
  TxManager.second_phase_call phase component attempt = Rejected d e ->
  exists e',
    (TxManager.guarded_call phase component attempt ()).1 = Rejected d e' /\
    instanceof_RetryableError e' = retried phase e /\
    (isRetryableError (wrapError e (show_phase phase)) = false -> e' = e).
Proof.
  intros Hcall. unfold TxManager.guarded_call, retried. rewrite Hcall.
  destruct (isRetryableError _) eqn:Hretry; simpl.
  - eexists. split_and!; [done | | done].
    by rewrite orb_true_r.
  - exists e. by rewrite orb_false_r.
Qed.

Lemma job_outcome_of k :
  outcome_of (TxManager.guarded_call phase component) () k
  = (TxManager.guarded_call phase component k ()).1.
Proof.
  unfold outcome_of.
  by destruct (state_before (TxManager.guarded_call phase component) () k).
Qed.
Lemma job_ends :
  exists n,
    (n <= 3)%nat /\
    (forall k, (k < n)%nat ->
       retryable_failure (TxManager.guarded_call phase component k ()).1) /\
    (retryable_failure (TxManager.guarded_call phase component n ()).1 ->
       n = 3%nat) /\
    TxManager.job random phase component
    = mkRun (retime (now_before (TxManager.guarded_call phase component)
                       (random (TccComponent.id component))
                       DEFAULT_RETRY_CONFIG () n)
                    (TxManager.guarded_call phase component n ()).1)
            ()
            (retry_trace (random (TccComponent.id component))
               DEFAULT_RETRY_CONFIG 0 n).
Proof.
  destruct (loop_ends (TxManager.guarded_call phase component)
              (random (TccComponent.id component)) DEFAULT_RETRY_CONFIG () 3 0)
    as (n & Hn & Hbefore & Hlast & Hrun); [intros j Hj; lia |].
  exists n. split; [lia |]. split_and!.
  - intros k Hk. rewrite <- job_outcome_of. by apply Hbefore.
  - rewrite <- job_outcome_of. intros H. apply Hlast in H. lia.
  - rewrite job_unfold. cbn [now_before state_before] in Hrun. rewrite Hrun.
    rewrite job_outcome_of, Nat.sub_0_r. f_equal.
    by destruct (state_after _ _ _).
Qed.

(** A component that keeps failing in a way the job retries is called
    four times. *)
Lemma job_exhausted :
  (forall k, (k <= 3)%nat ->
     exists d e, TxManager.second_phase_call phase component k = Rejected d e /\
                 retried phase e = true) ->
  let run := TxManager.job random phase component in
  attempts (trace run) = 4%nat /\ sleeps_of (trace run) = 3%nat /\
  exists t e, settled run = Rejected t e /\ instanceof_RetryableError e = true.
Proof.
  intros Hfail run. subst run.
  destruct job_ends as (n & Hn & Hbefore & Hlast & Hrun).
  assert (Hretry : forall k, (k <= 3)%nat ->
            retryable_failure (TxManager.guarded_call phase component k ()).1).
  { intros k Hk. destruct (Hfail k Hk) as (d & e & Hcall & He).
    destruct (guarded_call_retried k d e Hcall) as (e' & Hg & He' & _).
    rewrite Hg. exists d, e'. by rewrite He'. }
  assert (n = 3%nat) as -> by (by apply Hlast, Hretry).
  rewrite Hrun. cbn [trace settled].
  split_and!; [done | done |].
  destruct (Hretry 3%nat ltac:(lia)) as (d & e & Ho & He).
  rewrite Ho. simpl. by eauto.
Qed.

(** A first failure the job does not retry ends it with that error. *)
Lemma job_terminal d e :
  TxManager.second_phase_call phase component 0 = Rejected d e ->
  retried phase e = false ->
  let run := TxManager.job random phase component in
  trace run = [Attempt 0] /\ exists t, settled run = Rejected t e.
Proof.
  intros Hcall He run. subst run.
  destruct job_ends as (n & Hn & Hbefore & Hlast & Hrun).
  destruct (guarded_call_retried 0 d e Hcall) as (e' & Hg & He' & Hsame).
  assert (e' = e) as ->.
  { apply Hsame. unfold retried in He. by apply orb_false_iff in He as [_ ?]. }
  rewrite He in He'.
  assert (n = 0%nat) as ->.
  { destruct n as [|n]; [done |].
    destruct (Hbefore 0%nat ltac:(lia)) as (d0 & e0 & Ho & He0).
    rewrite Hg in Ho. simplify_eq. congruence. }
  rewrite Hrun, Hg. simpl. by eauto.
Qed.

(** A first call that succeeds makes the job resolve after that one
    call. *)
Lemma job_first_call d :
  TxManager.second_phase_call phase component 0 = Fulfilled d () ->
  let run := TxManager.job random phase component in
  trace run = [Attempt 0] /\ exists t, settled run = Fulfilled t ().
Proof.
  intros Hcall run. subst run. rewrite job_unfold, loop_unfold.
  unfold TxManager.guarded_call. rewrite Hcall. simpl. by eauto.
Qed.
End job_facts.

(** X14.  A confirm or cancel job retries a failure when the error is a
    [RetryableError] or when [isRetryableError] accepts it, be it by
    its message.  A component that keeps failing that way is called
    four times, with three sleeps, and the job rejects with a
    [RetryableError].  A first failure of another kind ends the job at
    once with that very error. *)
Theorem job_attempts (random : string -> nat -> Q) (phase : Phase)
    (component : TccComponent.t) :
  let run := TxManager.job random phase component in
  ((forall k, (k <= 3)%nat ->
      exists d e, TxManager.second_phase_call phase component k = Rejected d e /\
                  retried phase e = true) ->
   attempts (trace run) = 4%nat /\ sleeps_of (trace run) = 3%nat /\
   exists t e, settled run = Rejected t e /\
               instanceof_RetryableError e = true) /\
  (forall d e,
     TxManager.second_phase_call phase component 0 = Rejected d e ->
     retried phase e = false ->
     trace run = [Attempt 0] /\ exists t, settled run = Rejected t e).
Proof.
  intros run. split.
  - apply job_exhausted.
  - apply job_terminal.
Qed.

(** A component whose [confirm] times out on every call: the message
    makes the failure retryable. *)
Lemma job_attempts_witness :
  let random (_ : string) (_ : nat) : Q := 0%Q in
  let timing_out :=
    TccComponent.mk "A" (Fulfilled 0 ())
      (fun _ => Rejected 5 (ThrownError (new_Error "timeout of 5ms exceeded")))
      (fun _ => Fulfilled 0 ()) in
  (forall k, (k <= 3)%nat ->
     exists d e,
       TxManager.second_phase_call phase_confirm timing_out k = Rejected d e /\
       retried phase_confirm e = true) /\
  attempts (trace (TxManager.job random phase_confirm timing_out)) = 4%nat.
Proof.
  intros random timing_out.
  assert (Hfail : forall k, (k <= 3)%nat ->
            exists d e,
              TxManager.second_phase_call phase_confirm timing_out k
                = Rejected d e /\
              retried phase_confirm e = true).
  { intros k _. eexists _, _. split; [reflexivity | reflexivity]. }
  split; [exact Hfail |].
  exact (proj1 (proj1 (job_attempts random phase_confirm timing_out) Hfail)).
Defined.

(** ** Advancing a transaction *)

(** X15.  [advanceTransactionProgress] looks at the id of the transaction and
    at the try statuses recorded for the registered components, at
    nothing else: the stored status does not matter, and a transaction
    that is already [Successful] or [Failure] is confirmed or cancelled
    and submitted again. *)
Theorem advanceTransactionProgress_reads {St : Type}
    (txStore : TxStore.t St) (random : string -> nat -> Q)
    (components : TxManager.Components) (tx tx' : Transaction.t) (s : St) :
  Transaction.id tx' = Transaction.id tx ->
  (forall c, c ∈ TxManager.getComponents components ->
     tryStatus <$> Transaction.component_try_statuses tx' !! TccComponent.id c
     = tryStatus <$> Transaction.component_try_statuses tx !! TccComponent.id c) ->
  TxManager.advanceTransactionProgress txStore random components
    (TxManager.ByTransaction tx') s
  = TxManager.advanceTransactionProgress txStore random components
      (TxManager.ByTransaction tx) s.
Proof.
  intros Hid Hstatuses. unfold TxManager.advanceTransactionProgress.
  assert (Hstatus : TxManager.getStatus components tx'
                    = TxManager.getStatus components tx).
  { unfold TxManager.getStatus. by rewrite !(some_tryStatus_ext _ _ tx tx'). }
  rewrite Hstatus. unfold TxManager.fan_out. by rewrite Hid.
Qed.

Lemma advanceTransactionProgress_reads_witness :
  let a := MockTxStore.MockTccComponent "A" false false false 0 in
  let components := [("A", a)] in
  let doc : ComponentTryStatusRecord := {["A" := mkEntry "A" TrySuccessful]} in
  let random (_ : string) (_ : nat) : Q := 0%Q in
  let advance tx :=
    TxManager.advanceTransactionProgress MockTxStore.store random components
      (TxManager.ByTransaction tx) MockTxStore.init in
  advance (Transaction.mk 1 TXFailure doc 9)
  = advance (Transaction.mk 1 TXHanging doc 0).
Proof.
  intros a components doc random advance.
  apply (advanceTransactionProgress_reads MockTxStore.store random components);
    [reflexivity | intros c _; reflexivity].
Defined.

(** ** Starting a transaction *)

(** X16.  [startTransaction] throws in two cases only: no component is
    registered, and then the store is not touched, or [CreateTx] throws,
    and then that error is thrown; no [try] is called in either case.
    Once [CreateTx] has returned an id, nothing that fails later makes
    the call throw: it returns that id with [success = false], unless
    the second phase never settles. *)
Theorem startTransaction_throws {St : Type}
    (txStore : TxStore.t St) (config : TxConfig) (random : string -> nat -> Q)
    (components : TxManager.Components) (s : St) :
  let run := TxManager.startTransaction txStore config random components s in
  let registered := TxManager.getComponents components in
  (registered = [] ->
     run = TxManager.mkStartRun None None
             (Rejected 0 (ThrownError (new_Error "没有注册的组件，无法启动事务")))
             s) /\
  (forall e s',
     registered <> [] ->
     TxStore.CreateTx txStore registered s = (Throw e, s') ->
     run = TxManager.mkStartRun None None (Rejected 0 e) s') /\
  (forall txId s',
     registered <> [] ->
     TxStore.CreateTx txStore registered s = (Ok txId, s') ->
     (exists all adv, TxManager.try_phase run = Some all /\
                      TxManager.advance run = Some adv) /\
     ((exists t, TxManager.returned run = Fulfilled t (txId, false)) \/
      TxManager.returned run = Pending)).
Proof.
  intros run registered. subst run. unfold TxManager.startTransaction.
  fold registered. split_and!.
  - intros ->. done.
  - intros e s' Hne Hcreate.
    rewrite decide_False by (by destruct registered). by rewrite Hcreate.
  - intros txId s' Hne Hcreate.
    rewrite decide_False by (by destruct registered). rewrite Hcreate.
    destruct (TxManager.race _ _ _ _ _) as [settled_jobs s2].
    match goal with
    | |- context [Promise_all (Rejected ?t ?e :: ?ps)] =>
        destruct (Promise_all_with_timer t e ps) as (t' & e' & -> & Hle)
    end.
    simpl. split; [by eauto |].
    destruct (settled_at _); [left; by eauto | by right].
Qed.

(** The store of the test suite never throws from [CreateTx]: with one
    component the call returns the id 1 and [success = false]. *)
Lemma startTransaction_throws_witness :
  let a := MockTxStore.MockTccComponent "A" true false false 0 in
  let components := [("A", a)] in
  let random (_ : string) (_ : nat) : Q := 0%Q in
  let config := new_TxConfig 100 1000 false in
  let run :=
    TxManager.startTransaction MockTxStore.store config random components
      MockTxStore.init in
  TxManager.getComponents components <> [] /\
  ((exists t, TxManager.returned run = Fulfilled t (1%N, false)) \/
   TxManager.returned run = Pending).
Proof.
  intros a components random config run.
  assert (Hne : TxManager.getComponents components <> []) by done.
  split; [exact Hne |].
  exact (proj2 (proj2 (proj2 (startTransaction_throws MockTxStore.store config
                                random components MockTxStore.init))
                  1%N _ Hne eq_refl)).
Defined.

(** ** Starting a transaction on the store of the test suite *)

Section JsMap_set_facts.
Context {K V : Type} `{EqDecision K}.
Implicit Types (m : list (K * V)) (k : K) (v : V).


End JsMap_set_facts.

Section schedule_facts.
Implicit Types (c : TccComponent.t) (l : list TccComponent.t).







End schedule_facts.

Section MockTxStore_facts.
Variable txId : N.
Variable registered : list TccComponent.t.
Implicit Types (st : MockTxStore.State) (c : TccComponent.t).





End MockTxStore_facts.

Section advance_submits_facts.
Context {St : Type}.
Variable txStore : TxStore.t St.
Variable random : string -> nat -> Q.
Variable components : TxManager.Components.

Lemma Promise_all_all_fulfilled {T : Type} (ps : list (Settled T)) :
  (forall p, p ∈ ps -> is_fulfilled p = true) ->
  Promise_all ps = Fulfilled (last_fulfilment ps) (fulfilled_values ps).
Proof.
  intros Hall. unfold Promise_all.
  assert (Hnone : first_rejection ps = None).
  { apply first_rejection_None. intros p Hp. specialize (Hall p Hp).
    by destruct p. }
  rewrite Hnone.
  assert (Hforall : forallb is_fulfilled ps = true).
  { apply forallb_forall. intros p Hp. by apply Hall, list_elem_of_In. }
  by rewrite Hforall.
Qed.

(** A fan-out whose jobs all resolve calls [TXSubmit] when the last of
    them has resolved, and settles as [TXSubmit] does. *)
Lemma fan_out_submits phase success txStatus transaction (s : St) :
  (forall job, job ∈ fan_out_jobs random components phase ->
     is_fulfilled (settled job.2) = true) ->
  let t := last_fulfilment
             ((fun j => settled j.2) <$> fan_out_jobs random components phase) in
  let r := TxStore.TXSubmit txStore (Transaction.id transaction) success s in
  TxManager.fan_out txStore random phase success txStatus components
    transaction s
  = TxManager.mkAdvanceRun (Some txStatus)
      (fan_out_jobs random components phase)
      (Some (Transaction.id transaction, success, t))
      match r.1 with Ok _ => Fulfilled t () | Throw e => Rejected t e end
      r.2.
Proof.
  intros Hall t r. subst t r. unfold TxManager.fan_out.
  fold (fan_out_jobs random components phase).
  rewrite Promise_all_all_fulfilled.
  - by destruct (TxStore.TXSubmit txStore _ _ _) as [[] ?].
  - intros p (job & -> & Hjob)%list_elem_of_fmap. by apply Hall.
Qed.
End advance_submits_facts.

(** X17.  When the aggregate status is [Successful] or [Failure] and every
    job of the fan-out resolves, [TXSubmit] is called, with the id of
    the transaction and that outcome, at the instant the last job
    resolved; the invocation settles as [TXSubmit] does and leaves the
    store [TXSubmit] leaves.  With an empty registry this is the case
    for every transaction: it is submitted as [Successful] at once. *)
Theorem advanceTransactionProgress_calls_TXSubmit {St : Type}
    (txStore : TxStore.t St) (random : string -> nat -> Q)
    (components : TxManager.Components) (transaction : Transaction.t)
    (s : St) :
  let run := TxManager.advanceTransactionProgress txStore random components
               (TxManager.ByTransaction transaction) s in
  (forall success,
     TxManager.getStatus components transaction = Ok (submitted_status success) ->
     (forall job, job ∈ fan_out_jobs random components (phase_of success) ->
        is_fulfilled (settled job.2) = true) ->
     let t := last_fulfilment
                ((fun j => settled j.2)
                   <$> fan_out_jobs random components (phase_of success)) in
     let r := TxStore.TXSubmit txStore (Transaction.id transaction) success s in
     TxManager.submitted run = Some (Transaction.id transaction, success, t) /\
     TxManager.store run = r.2 /\
     TxManager.outcome run
     = match r.1 with Ok _ => Fulfilled t () | Throw e => Rejected t e end) /\
  (components = [] ->
     TxManager.submitted run = Some (Transaction.id transaction, true, 0%Q) /\
     TxManager.jobs run = []).
Proof.
  intros run.
  assert (Hsubmits : forall success,
     TxManager.getStatus components transaction = Ok (submitted_status success) ->
     (forall job, job ∈ fan_out_jobs random components (phase_of success) ->
        is_fulfilled (settled job.2) = true) ->
     run = TxManager.mkAdvanceRun (Some (submitted_status success))
             (fan_out_jobs random components (phase_of success))
             (Some (Transaction.id transaction, success,
                    last_fulfilment
                      ((fun j => settled j.2)
                         <$> fan_out_jobs random components (phase_of success))))
             match (TxStore.TXSubmit txStore (Transaction.id transaction)
                      success s).1 with
             | Ok _ =>
                 Fulfilled
                   (last_fulfilment
                      ((fun j => settled j.2)
                         <$> fan_out_jobs random components (phase_of success)))
                   ()
             | Throw e =>
                 Rejected
                   (last_fulfilment
                      ((fun j => settled j.2)
                         <$> fan_out_jobs random components (phase_of success)))
                   e
             end
             (TxStore.TXSubmit txStore (Transaction.id transaction) success s).2).
  { intros success Hstatus Hall. subst run.
    unfold TxManager.advanceTransactionProgress. rewrite Hstatus.
    destruct success; simpl submitted_status; cbv iota;
      by rewrite fan_out_submits. }
  split.
  - intros success Hstatus Hall. by rewrite (Hsubmits success Hstatus Hall).
  - intros ->.
    rewrite (Hsubmits true); [done | done |].
    intros job Hjob. by apply elem_of_nil in Hjob.
Qed.

(** With nothing registered, a transaction recorded as failed is
    submitted as [Successful]. *)
Lemma advanceTransactionProgress_calls_TXSubmit_witness :
  let random (_ : string) (_ : nat) : Q := 0%Q in
  let doc : ComponentTryStatusRecord := {["A" := mkEntry "A" TryFailure]} in
  let tx := Transaction.mk 1 TXHanging doc 0 in
  let st := MockTxStore.mkState [(1%N, tx)] 2 0 in
  let run :=
    TxManager.advanceTransactionProgress MockTxStore.store random []
      (TxManager.ByTransaction tx) st in
  TxManager.submitted run = Some (1%N, true, 0%Q) /\
  TxManager.jobs run = [].
Proof.
  intros random doc tx st run.
  exact (proj2 (advanceTransactionProgress_calls_TXSubmit MockTxStore.store random []
                  tx st) eq_refl).
Defined.



Section MockTxStore_start.
Variable config : TxConfig.
Variable random : string -> nat -> Q.
Variable components : TxManager.Components.
Variable st : MockTxStore.State.

Let registered := TxManager.getComponents components.
Let txId := MockTxStore.nextId st.


End MockTxStore_start.





Section MockTxStore_success.
Variable txId : N.
Variable registered : list TccComponent.t.
Implicit Types (st : MockTxStore.State) (c : TccComponent.t).


End MockTxStore_success.



(** ** The two stores side by side *)

Section mirror_facts.
Import MySQLTxStore.
Implicit Types (pool : Pool) (rows : list Row) (row : Row).




End mirror_facts.



(** ** The lock of the MySQL store *)




(** X23.  [Unlock] never throws, whatever the driver does and whatever
    [RELEASE_LOCK] answers, and it always leaves the store without a
    lock key.  It sends one statement when a key is held and none
    otherwise; the table is never touched. *)
Theorem Unlock_releases (db : MySQLTxStoreLock.Store) :
  let r := MySQLTxStoreLock.Unlock db in
  r.1 = Fulfilled 0 () /\
  MySQLTxStoreLock.lockKey r.2 = None /\
  (MySQLTxStoreLock.lockKey db = None -> r.2 = db) /\
  (is_Some (MySQLTxStoreLock.lockKey db) ->
     MySQLTxStoreLock.lockExpireTime r.2 = None /\
     MySQLTxStore.faults (MySQLTxStoreLock.pool r.2)
       = tail (MySQLTxStore.faults (MySQLTxStoreLock.pool db))) /\
  MySQLTxStore.tx_record (MySQLTxStoreLock.pool r.2)
    = MySQLTxStore.tx_record (MySQLTxStoreLock.pool db).
Proof.
  intros r. subst r. unfold MySQLTxStoreLock.Unlock.
  destruct db as [[rows next fs clock] [key|] expire answers date]; simpl.
  - unfold MySQLTxStoreLock.query, MySQLTxStore.next_fault,
      MySQLTxStoreLock.next_answer.
    destruct fs as [|[] fs], answers as [|a answers]; simpl;
      (split_and!; [done | done | done | done | done]).
  - split_and!; [done | done | done | | done]. by intros [? ?].
Qed.

(** A lock that was taken is given up by [Unlock] even when the driver
    rejects the [RELEASE_LOCK] statement. *)
Lemma Unlock_releases_witness :
  let db :=
    MySQLTxStoreLock.mkStore (MySQLTxStore.mkPool [] 1 [true] 0)
      (Some (1000, 0%Q)) (Some 3000) [] 1000 in
  is_Some (MySQLTxStoreLock.lockKey db) /\
  MySQLTxStoreLock.lockExpireTime (MySQLTxStoreLock.Unlock db).2 = None.
Proof.
  intros db.
  assert (Hheld : is_Some (MySQLTxStoreLock.lockKey db)) by (by eexists).
  split; [exact Hheld |].
  exact (proj1 (proj1 (proj2 (proj2 (proj2 (Unlock_releases db)))) Hheld)).
Defined.

(** ** The network component *)

Section NetworkTccComponent_facts.
Import NetworkTccComponent.

Lemma cancel_settles reply :
  reply <> NoReply -> exists d, cancel reply = Fulfilled d ().
Proof. destruct reply; intros Hreply; [by eexists.. | done]. Qed.

Lemma confirm_retried_reply reply :
  retried_reply reply = true ->
  exists d e, confirm reply = Rejected d e /\ retried phase_confirm e = true.
Proof.
  unfold confirm, first_phase. destruct reply as [d status success m|d code status error|d error|];
    simpl; intros Hretried; [| | by eauto | done].
  - rewrite Hretried. by eauto.
  - destruct (network_failure code status); [by eauto |].
    simpl in Hretried. by eauto.
Qed.
End NetworkTccComponent_facts.

(** X24.  [cancel] of a network component never throws: whatever comes back,
    a refusal, a server error or a connection failure, it resolves
    when the request does.  Hence, for a transaction whose aggregate
    status is [Failure] and a registry of network components whose
    cancel requests come back, [advanceTransactionProgress] sends each
    component one cancel request and calls [TXSubmit(id, false)]. *)
Theorem NetworkTccComponent_cancel {St : Type}
    (txStore : TxStore.t St) (random : string -> nat -> Q)
    (components : TxManager.Components) (transaction : Transaction.t) (s : St) :
  let run := TxManager.advanceTransactionProgress txStore random components
               (TxManager.ByTransaction transaction) s in
  (forall reply, is_rejected (NetworkTccComponent.cancel reply) = false /\
     settled_at (NetworkTccComponent.cancel reply)
     = match reply with
       | NetworkTccComponent.Response d _ _ _
       | NetworkTccComponent.AxiosError d _ _ _
       | NetworkTccComponent.OtherError d _ => Some d
       | NetworkTccComponent.NoReply => None
       end) /\
  (TxManager.getStatus components transaction = Ok TXFailure ->
   (forall c, c ∈ TxManager.getComponents components -> answered_cancel c) ->
   (exists t, TxManager.submitted run
              = Some (Transaction.id transaction, false, t)) /\
   TxManager.store run
   = (TxStore.TXSubmit txStore (Transaction.id transaction) false s).2 /\
   forall job, job ∈ TxManager.jobs run -> trace job.2 = [Attempt 0]).
Proof.
  intros run. split; [intros reply; by destruct reply |].
  intros Hstatus Hanswered.
  assert (Hjob : forall c, c ∈ TxManager.getComponents components ->
            trace (TxManager.job random phase_cancel c) = [Attempt 0] /\
            exists t, settled (TxManager.job random phase_cancel c)
                      = Fulfilled t ()).
  { intros c Hc.
    destruct (Hanswered c Hc) as (id & tryReply & confirmReply & cancelReply
                                  & -> & Hreply).
    destruct (cancel_settles (cancelReply 0%nat) (Hreply 0%nat)) as [d Hd].
    by apply (job_first_call random phase_cancel _ d). }
  assert (Hall : forall job, job ∈ fan_out_jobs random components phase_cancel ->
            is_fulfilled (settled job.2) = true).
  { intros job (c & -> & Hc)%list_elem_of_fmap. simpl.
    destruct (Hjob c Hc) as (_ & t & ->). done. }
  subst run. unfold TxManager.advanceTransactionProgress. rewrite Hstatus.
  rewrite fan_out_submits by done.
  cbn [TxManager.submitted TxManager.store TxManager.jobs].
  split_and!; [by eexists | done |].
  intros job (c & -> & Hc)%list_elem_of_fmap. simpl. by apply Hjob.
Qed.

(** A participant that refuses to cancel, with a 500, is sent one
    request and the transaction is submitted as failed. *)
Lemma NetworkTccComponent_cancel_witness :
  let refused (_ : nat) :=
    NetworkTccComponent.Response 20 500 false (Some "cannot cancel") in
  let a :=
    NetworkTccComponent.new "A"
      (NetworkTccComponent.Response 10 200 false None)
      (fun _ => NetworkTccComponent.NoReply) refused in
  let components := [("A", a)] in
  let doc : ComponentTryStatusRecord := {["A" := mkEntry "A" TryFailure]} in
  let tx := Transaction.mk 1 TXHanging doc 0 in
  let st := MockTxStore.mkState [(1%N, tx)] 2 0 in
  let random (_ : string) (_ : nat) : Q := 0%Q in
  let run :=
    TxManager.advanceTransactionProgress MockTxStore.store random components
      (TxManager.ByTransaction tx) st in
  (TxManager.getStatus components tx = Ok TXFailure /\
   forall c, c ∈ TxManager.getComponents components -> answered_cancel c) /\
  MockTxStore.GetTX 1 (TxManager.store run)
  = Ok (Transaction.mk 1 TXFailure doc 0).
Proof.
  intros refused a components doc tx st random run.
  assert (Hstatus : TxManager.getStatus components tx = Ok TXFailure)
    by reflexivity.
  assert (Hanswered : forall c, c ∈ TxManager.getComponents components ->
            answered_cancel c).
  { intros c Hc. apply list_elem_of_singleton in Hc. subst c.
    eexists _, _, _, refused. split; [reflexivity | done]. }
  split; [exact (conj Hstatus Hanswered) |].
  destruct (proj2 (NetworkTccComponent_cancel MockTxStore.store random
                     components tx st) Hstatus Hanswered) as (_ & Hstore & _).
  fold run in Hstore. rewrite Hstore. reflexivity.
Defined.

(** X25.  [confirm] of a network component, seen from the job of the
    manager.  A response that is not a 200 success is thrown as a
    [RetryableError], and so is an axios error with the code
    [ECONNREFUSED] or [ETIMEDOUT] or a status from 500 on; any other
    error is passed on as it is, and the job may retry it all the
    same, as it does for the timeout of axios, by its message.  When
    every request comes back in one of these ways the job sends four
    requests and rejects; when the first request comes back with an
    error of another kind the job sends that one request. *)
Theorem NetworkTccComponent_confirm (random : string -> nat -> Q)
    (id : string) (tryReply : NetworkTccComponent.Reply)
    (confirmReply cancelReply : nat -> NetworkTccComponent.Reply) :
  let c := NetworkTccComponent.new id tryReply confirmReply cancelReply in
  let run := TxManager.job random phase_confirm c in
  ((forall k, (k <= 3)%nat -> retried_reply (confirmReply k) = true) ->
   attempts (trace run) = 4%nat /\
   exists t e, settled run = Rejected t e /\
               instanceof_RetryableError e = true) /\
  (forall d e,
     NetworkTccComponent.confirm (confirmReply 0%nat) = Rejected d e ->
     retried_reply (confirmReply 0%nat) = false ->
     trace run = [Attempt 0] /\ exists t, settled run = Rejected t e) /\
  (forall d m,
     confirmReply 0%nat = NetworkTccComponent.Response d 200 true m ->
     trace run = [Attempt 0] /\ exists t, settled run = Fulfilled t ()) /\
  (forall d error,
     has_marker (message error) = true ->
     retried_reply
       (NetworkTccComponent.AxiosError d (Some "ECONNABORTED") None error)
     = true).
Proof.
  intros c run. split_and!.
  - intros Hretried.
    destruct (job_exhausted random phase_confirm c) as (Ha & _ & Hsettled);
      [|done].
    intros k Hk. by apply confirm_retried_reply, Hretried.
  - intros d e Hconfirm Hretried.
    apply (job_terminal random phase_confirm c d e); [done |].
    unfold NetworkTccComponent.confirm, NetworkTccComponent.first_phase in Hconfirm.
    destruct (confirmReply 0%nat) as [d0 status success m|d0 code status error|d0 error|];
      simpl in Hretried; [| | by simplify_eq | done].
    + by rewrite Hretried in Hconfirm.
    + apply orb_false_iff in Hretried as [Hnet Hretried].
      rewrite Hnet in Hconfirm. by simplify_eq.
  - intros d m Hreply.
    apply (job_first_call random phase_confirm c d). simpl.
    unfold NetworkTccComponent.confirm. by rewrite Hreply.
  - intros d error Hmarker. unfold retried_reply, retried. simpl.
    unfold isRetryableError. fold (has_marker (message error)).
    rewrite Hmarker. by rewrite orb_true_r.
Qed.

(** A participant that answers 503 to every confirm request. *)
Lemma NetworkTccComponent_confirm_witness :
  let unavailable (_ : nat) :=
    NetworkTccComponent.AxiosError 30 (Some "ERR_BAD_RESPONSE") (Some 503)
      (new_Error "Request failed with status code 503") in
  let a :=
    NetworkTccComponent.new "A"
      (NetworkTccComponent.Response 10 200 true None) unavailable
      (fun _ => NetworkTccComponent.NoReply) in
  let random (_ : string) (_ : nat) : Q := 0%Q in
  (forall k, (k <= 3)%nat -> retried_reply (unavailable k) = true) /\
  attempts (trace (TxManager.job random phase_confirm a)) = 4%nat.
Proof.
  intros unavailable a random.
  assert (Hretried : forall k, (k <= 3)%nat ->
            retried_reply (unavailable k) = true) by done.
  split; [exact Hretried |].
  exact (proj1 (proj1 (NetworkTccComponent_confirm random "A"
                         (NetworkTccComponent.Response 10 200 true None)
                         unavailable (fun _ => NetworkTccComponent.NoReply))
                  Hretried)).
Defined.

(** ** The metrics collector *)

Section metrics_facts.
Import metrics.

Lemma last_n_snoc {A : Type} (n : nat) (l : list A) (x : A) :
  (0 < n)%nat ->
  last_n n (l ++ [x])
  = if decide (n < length (last_n n l ++ [x]))%nat
    then tail (last_n n l ++ [x]) else last_n n l ++ [x].
Proof.
  intros Hn. unfold last_n. rewrite !length_app, length_drop. simpl.
  destruct (decide (length l < n)%nat) as [Hshort|Hlong].
  - replace (length l - n)%nat with 0%nat by lia.
    replace (length l + 1 - n)%nat with 0%nat by lia.
    rewrite !drop_0. by rewrite decide_False by lia.
  - rewrite decide_True by lia.
    rewrite <- (drop_app_le l [x] (length l - n)) by lia.
    assert (Htail : forall l' : list A, tail l' = drop 1 l') by (by intros []).
    rewrite Htail, drop_drop. f_equal. lia.
Qed.

Lemma record_durations c call :
  transactionDurations (record c call)
  = match duration_of call with
    | Some d =>
        if decide (maxDurationSamples
                   < length (transactionDurations c ++ [d]))%nat
        then tail (transactionDurations c ++ [d])
        else transactionDurations c ++ [d]
    | None => transactionDurations c
    end.
Proof. by destruct call. Qed.

Lemma record_average c call d :
  duration_of call = Some d ->
  averageTransactionDuration (metrics (record c call))
  = (sum (transactionDurations (record c call))
     / inject_Z (Z.of_nat (length (transactionDurations (record c call)))))%Q.
Proof. by destruct call. Qed.

Lemma record_average_kept c call :
  duration_of call = None ->
  averageTransactionDuration (metrics (record c call))
  = averageTransactionDuration (metrics c).
Proof. by destruct call. Qed.

Lemma recorded_snoc calls call :
  recorded (calls ++ [call]) = record (recorded calls) call.
Proof. unfold recorded. by rewrite foldl_app. Qed.
End metrics_facts.

(** X26.  The collector keeps the durations of the last 1000 finished
    transactions, in the order they were reported, whatever other
    calls come in between; once a duration has been reported the
    average it shows is the mean of the durations kept.  The three
    outcome counters add up to the number of durations reported. *)
Theorem recordDuration_window (calls : list Recorded) :
  let c := recorded calls in
  let durations := omap duration_of calls in
  let m := metrics.metrics c in
  metrics.transactionDurations c = last_n 1000 durations /\
  (length (metrics.transactionDurations c) <= 1000)%nat /\
  (durations <> [] ->
     metrics.averageTransactionDuration m
     = (metrics.sum (metrics.transactionDurations c)
        / inject_Z (Z.of_nat (length (metrics.transactionDurations c))))%Q) /\
  (metrics.transactionSuccess m + metrics.transactionFailure m
   + metrics.transactionTimeout m)%N
  = N.of_nat (length durations).
Proof.
  induction calls as [|call calls IH] using rev_ind.
  - split_and!; [done | simpl; lia | done | done].
  - destruct IH as (Hkept & Hlen & Havg & Hcount).
    cbv zeta. rewrite recorded_snoc, omap_app. simpl omap.
    assert (Hwindow :
              metrics.transactionDurations (record (recorded calls) call)
              = last_n 1000 (omap duration_of calls
                             ++ match duration_of call with
                                | Some d => [d]
                                | None => []
                                end)).
    { rewrite record_durations, Hkept.
      destruct (duration_of call) as [d|]; [|by rewrite app_nil_r].
      by rewrite last_n_snoc by lia. }
    split_and!.
    + rewrite Hwindow. by destruct (duration_of call).
    + rewrite Hwindow. unfold last_n. rewrite length_drop. lia.
    + intros Hne. destruct (duration_of call) as [d|] eqn:Hd.
      * by apply (record_average _ _ d).
      * rewrite record_average_kept by done.
        rewrite record_durations, Hd. apply Havg.
        by rewrite app_nil_r in Hne.
    + rewrite length_app.
      destruct call; simpl in *; lia.
Qed.

(** X27.  Whatever the counters are, the success rate lies between 0 and 1,
    and it is 0 as long as no transaction has finished. *)
Theorem getSuccessRate_range (c : metrics.InMemoryMetricsCollector) :
  let m := metrics.metrics c in
  (0 <= metrics.getSuccessRate c)%Q /\
  (metrics.getSuccessRate c <= 1)%Q /\
  ((metrics.transactionSuccess m + metrics.transactionFailure m
    + metrics.transactionTimeout m = 0)%N -> metrics.getSuccessRate c = 0%Q) /\
  (metrics.transactionSuccess m = 0%N -> (metrics.getSuccessRate c == 0)%Q).
Proof.
  intros m. unfold metrics.getSuccessRate. fold m.
  set (success := metrics.transactionSuccess m).
  set (total := (success + metrics.transactionFailure m
                 + metrics.transactionTimeout m)%N).
  destruct (decide (0 < total)%N) as [Hpos|Hzero].
  - assert (Htotal : (0 < inject_Z (Z.of_N total))%Q).
    { rewrite <- (Zlt_Qlt 0). lia. }
    split_and!.
    + apply Qle_shift_div_l; [done |]. rewrite Qmult_0_l.
      rewrite <- (Zle_Qle 0). lia.
    + apply Qle_shift_div_r; [done |]. rewrite Qmult_1_l.
      rewrite <- Zle_Qle. lia.
    + lia.
    + intros ->. unfold Qdiv. by rewrite Qmult_0_l.
  - split_and!; [done | done | done | done].
Qed.

Lemma getSuccessRate_range_witness :
  let c := recorded [TransactionStarted; TransactionTimeout 5000] in
  metrics.transactionSuccess (metrics.metrics c) = 0%N /\
  (metrics.getSuccessRate c == 0)%Q.
Proof.
  intros c.
  assert (Hnone : metrics.transactionSuccess (metrics.metrics c) = 0%N)
    by reflexivity.
  split; [exact Hnone |].
  exact (proj2 (proj2 (proj2 (getSuccessRate_range c))) Hnone).
Defined.

Lemma recordDuration_window_witness :
  let calls := [TransactionStarted; TransactionFailure 30;
                ComponentTry "A" true; TransactionSuccess 10] in
  omap duration_of calls <> [] /\
  metrics.averageTransactionDuration (metrics.metrics (recorded calls))
  = (metrics.sum [30; 10] / inject_Z 2)%Q.
Proof.
  intros calls.
  assert (Hne : omap duration_of calls <> []) by done.
  split; [exact Hne |].
  exact (proj1 (proj2 (proj2 (recordDuration_window calls))) Hne).
Defined.
